(** * The libxml2 glue layer of [xml/helper.c]

    [helper.c] is a thin C adapter between a host runtime and libxml2.
    Every function of the file is embedded below as a computation over
    an explicit world: the heap of libxml2 tree objects, the library's
    process-wide last error, the byte memory that holds the caller's
    error buffer, and the trace of every call that crosses the adapter's
    boundary (library entry points, host callbacks, [printf]).

    Results that only libxml2 decides (what a parse produces, what a
    copy allocates, which chunks a save flushes) are the fields of the
    [Libxml2] class; the theorems hold for every instance of it.  The
    one library routine whose effect on the tree the properties depend
    on, [xmlUnlinkNode], is modelled statement by statement after
    libxml2's [tree.c].  The host runtime's two callbacks leave their
    call in the trace.

    Embedded: [xml_write_callback], [close_callback],
    [xmlDocDumpToString], [xmlParse], [xmlParseFragment],
    [xmlParseFragmentAsDoc], [xmlSetContent], [xmlUnlinkNodeWithCheck],
    [xmlNodePtrCheck] and [xmlSaveNode]. *)

From stdpp Require Import base option list gmap strings.
From Stdlib Require Import ZArith Lia Ascii.
From Stdlib Require String.

Local Open Scope Z_scope.

(** ** Machine values *)

(** Pointers are addresses; C [int]s are integers with the 32-bit
    wrap-around written out where the code computes with them. *)
Abbreviation ptr := Z.

Definition NULL : ptr := 0.

Definition ptr_bits : Z := 64.

(** [(void* )i] for a C integer [i]. *)
Definition ptr_of_int (i : Z) : ptr := i mod 2 ^ ptr_bits.

(** The parent value [xmlNodePtrCheck] compares against: [(void* )(-1)]. *)
Definition DETACHED : ptr := Eval cbv in ptr_of_int (-1).

Definition wrap_int (i : Z) : Z := (i + 2 ^ 31) mod 2 ^ 32 - 2 ^ 31.

(** [(size_t)i] for a C [int] [i]. *)
Definition size_t_of_int (i : Z) : Z := i mod 2 ^ ptr_bits.

(** ** libxml2 data, as far as the adapter touches it *)

(** [xmlElementType] of [tree.h], in declaration order (values 1..21). *)
Inductive xmlElementType :=
| XML_ELEMENT_NODE | XML_ATTRIBUTE_NODE | XML_TEXT_NODE
| XML_CDATA_SECTION_NODE | XML_ENTITY_REF_NODE | XML_ENTITY_NODE
| XML_PI_NODE | XML_COMMENT_NODE | XML_DOCUMENT_NODE
| XML_DOCUMENT_TYPE_NODE | XML_DOCUMENT_FRAG_NODE | XML_NOTATION_NODE
| XML_HTML_DOCUMENT_NODE | XML_DTD_NODE | XML_ELEMENT_DECL
| XML_ATTRIBUTE_DECL | XML_ENTITY_DECL | XML_NAMESPACE_DECL
| XML_XINCLUDE_START | XML_XINCLUDE_END | XML_DOCB_DOCUMENT_NODE.

#[global] Instance xmlElementType_eq_dec : EqDecision xmlElementType.
Proof. solve_decision. Defined.

(** One tree object.  [xmlNode], [xmlAttr], [xmlDtd] and [xmlDoc] share
    the leading fields [type .. doc], and libxml2 casts freely between
    them, so a single record with the union of the fields that the
    modelled code reads or writes stands for all four. *)
Record xmlNode := XmlNode {
  n_type : xmlElementType;
  n_children : ptr;
  n_last : ptr;
  n_parent : ptr;
  n_next : ptr;
  n_prev : ptr;
  n_doc : ptr;
  n_properties : ptr;
  n_intSubset : ptr;
  n_extSubset : ptr;
  n_content : option string
}.

Definition set_children (v : ptr) (n : xmlNode) : xmlNode :=
  XmlNode (n_type n) v (n_last n) (n_parent n) (n_next n) (n_prev n)
          (n_doc n) (n_properties n) (n_intSubset n) (n_extSubset n) (n_content n).
Definition set_last (v : ptr) (n : xmlNode) : xmlNode :=
  XmlNode (n_type n) (n_children n) v (n_parent n) (n_next n) (n_prev n)
          (n_doc n) (n_properties n) (n_intSubset n) (n_extSubset n) (n_content n).
Definition set_parent (v : ptr) (n : xmlNode) : xmlNode :=
  XmlNode (n_type n) (n_children n) (n_last n) v (n_next n) (n_prev n)
          (n_doc n) (n_properties n) (n_intSubset n) (n_extSubset n) (n_content n).
Definition set_next (v : ptr) (n : xmlNode) : xmlNode :=
  XmlNode (n_type n) (n_children n) (n_last n) (n_parent n) v (n_prev n)
          (n_doc n) (n_properties n) (n_intSubset n) (n_extSubset n) (n_content n).
Definition set_prev (v : ptr) (n : xmlNode) : xmlNode :=
  XmlNode (n_type n) (n_children n) (n_last n) (n_parent n) (n_next n) v
          (n_doc n) (n_properties n) (n_intSubset n) (n_extSubset n) (n_content n).
Definition set_properties (v : ptr) (n : xmlNode) : xmlNode :=
  XmlNode (n_type n) (n_children n) (n_last n) (n_parent n) (n_next n) (n_prev n)
          (n_doc n) v (n_intSubset n) (n_extSubset n) (n_content n).
Definition set_intSubset (v : ptr) (n : xmlNode) : xmlNode :=
  XmlNode (n_type n) (n_children n) (n_last n) (n_parent n) (n_next n) (n_prev n)
          (n_doc n) (n_properties n) v (n_extSubset n) (n_content n).
Definition set_extSubset (v : ptr) (n : xmlNode) : xmlNode :=
  XmlNode (n_type n) (n_children n) (n_last n) (n_parent n) (n_next n) (n_prev n)
          (n_doc n) (n_properties n) (n_intSubset n) v (n_content n).

(** [xmlErrorLevel] of [xmlerror.h]. *)
Definition XML_ERR_NONE : Z := 0.
Definition XML_ERR_WARNING : Z := 1.
Definition XML_ERR_ERROR : Z := 2.
Definition XML_ERR_FATAL : Z := 3.

(** [xmlParserErrors]: only [XML_ERR_OK] is named by the adapter. *)
Definition XML_ERR_OK : Z := 0.

(** The fields of [xmlError] that [xmlParse] reads.  A C string is held
    by value (the bytes before its terminator); [None] is a null
    [char*]. *)
Record xmlError := XmlError {
  e_code : Z;
  e_level : Z;
  e_message : option string
}.

(** ** Calls that cross the adapter's boundary

    Library entry points are recorded when they are entered.  A save
    context is named by the sink it is bound to ([None]: the null
    context).  [EvIoWrite] and [EvIoClose] record the library invoking
    the context's write and close callbacks; [EvNodeWriteCallback] and
    [EvUnlinkNodeCallback] are the adapter calling into the host. *)

Inductive event :=
| EvResetLastError
| EvReadMemory (buffer : ptr) (size : Z) (url encoding : ptr) (options : Z)
| EvFreeDoc (cur : ptr)
| EvGetLastError
| EvParseInNodeContext (node data : ptr) (datalen options : Z)
| EvPrintf (errCode : Z)
| EvDocGetRootElement (doc : ptr)
| EvDocCopyNode (node doc : ptr) (extended : Z)
| EvEncodeSpecialChars (doc : ptr) (input : option string)
| EvUnlinkNode (cur : ptr)
| EvUnlinkNodeCallback (child gonode : ptr)
| EvNodeSetContent (cur : ptr) (content : string)
| EvFree (s : string)
| EvDocDumpFormatMemoryEnc (doc encoding : ptr) (format : Z)
| EvSaveToIO (ioctx encoding : ptr) (options : Z)
| EvSaveTree (ctxt : option ptr) (node : ptr)
| EvSaveClose (ctxt : option ptr)
| EvIoWrite (ctx buffer : ptr) (len : Z)
| EvIoClose (ctx : ptr)
| EvNodeWriteCallback (ctx buffer : ptr) (len : Z).

#[global] Instance event_eq_dec : EqDecision event.
Proof. solve_decision. Defined.

(** ** The world and the adapter monad *)

Record world := World {
  heap : gmap Z xmlNode;
  lastError : option xmlError;
  mem : Z -> ascii;
  trace : list event
}.

Definition set_heap (h : gmap Z xmlNode) (w : world) : world :=
  World h (lastError w) (mem w) (trace w).
Definition set_lastError (e : option xmlError) (w : world) : world :=
  World (heap w) e (mem w) (trace w).
Definition set_mem (m : Z -> ascii) (w : world) : world :=
  World (heap w) (lastError w) m (trace w).
Definition add_events (es : list event) (w : world) : world :=
  World (heap w) (lastError w) (mem w) (trace w ++ es).
Definition add_event (e : event) (w : world) : world := add_events [e] w.

(** A computation either faults ([None]: a null or dangling pointer was
    dereferenced, or a copy ran off the memory) or returns a value and
    the next world. *)
Definition io (A : Type) : Type := world -> option (A * world).

#[global] Instance io_ret : MRet io := λ A x w, Some (x, w).
#[global] Instance io_bind : MBind io :=
  λ A B f m w, match m w with Some (x, w') => f x w' | None => None end.

Definition log (e : event) : io unit := λ w, Some (tt, add_event e w).

(** The current world, for the oracles to look at. *)
Definition observe : io world := λ w, Some (w, w).

(** [if (c) body] with no [else]. *)
Definition when (c : bool) (body : io unit) : io unit :=
  if c then body else mret tt.

(** The object a pointer designates.  Neither [NULL] nor [(void* )(-1)]
    can be dereferenced. *)
Definition obj (h : gmap Z xmlNode) (p : ptr) : option xmlNode :=
  if bool_decide (p = NULL ∨ p = DETACHED) then None else h !! p.

(** [p->f] *)
Definition read {A} (f : xmlNode -> A) (p : ptr) : io A :=
  λ w, match obj (heap w) p with Some n => Some (f n, w) | None => None end.

(** [p->f = v] *)
Definition write (upd : ptr -> xmlNode -> xmlNode) (p v : ptr) : io unit :=
  λ w, match obj (heap w) p with
       | Some n => Some (tt, set_heap (<[p := upd v n]> (heap w)) w)
       | None => None
       end.

(** ** What libxml2 decides

    The adapter cannot see inside the parser, the copier, the encoder or
    the serializer; their outcomes are oracles that may depend on the
    whole world they are called in (memory contents, tree, history). *)

Record parse_result := ParseResult {
  pr_doc : ptr;                       (* the new document, NULL on failure *)
  pr_heap : gmap Z xmlNode;           (* the tree after the parse *)
  pr_lastError : option xmlError      (* the global error after the parse *)
}.

Record fragment_result := FragmentResult {
  fr_code : Z;                        (* the xmlParserErrors code *)
  fr_lst : option ptr;                (* the value stored through [lst], if any *)
  fr_heap : gmap Z xmlNode;
  fr_lastError : option xmlError
}.

(** A chunk handed to an output callback: address and length. *)
Record chunk := Chunk { c_buf : ptr; c_len : Z }.

Class Libxml2 := {
  lib_xmlReadMemory : world -> ptr -> Z -> ptr -> ptr -> Z -> parse_result;
  lib_xmlParseInNodeContext : world -> ptr -> ptr -> Z -> Z -> fragment_result;
  lib_xmlDocGetRootElement : gmap Z xmlNode -> ptr -> ptr;
  lib_xmlDocCopyNode : gmap Z xmlNode -> ptr -> ptr -> Z -> ptr * gmap Z xmlNode;
  lib_xmlFreeDoc : gmap Z xmlNode -> ptr -> gmap Z xmlNode;
  lib_xmlEncodeSpecialChars : gmap Z xmlNode -> ptr -> option string -> option string;
  lib_xmlNodeSetContent : gmap Z xmlNode -> ptr -> string -> gmap Z xmlNode;
  (* the text xmlDocDumpFormatMemoryEnc stores through its out-parameter *)
  lib_xmlDocDumpFormatMemoryEnc : gmap Z xmlNode -> ptr -> ptr -> Z -> option string;
  (* does xmlSaveToIO obtain a context for this sink, encoding, options? *)
  lib_save_opens : world -> ptr -> ptr -> Z -> bool;
  (* chunks flushed while the tree is written, and xmlSaveTree's result *)
  lib_save_tree : world -> ptr -> ptr -> list chunk * Z;
  (* chunks flushed by the final flush, and xmlSaveClose's result *)
  lib_save_close : world -> ptr -> list chunk * Z
}.

(** ** libxml2 entry points over the world *)

(** [xmlUnlinkNode] of libxml2's [tree.c], statement by statement, in
    the three parts the function falls into.  The entity tables that the
    [XML_ENTITY_DECL] case of recent versions also updates are not part
    of the modelled heap.

    A DTD node is first taken out of its document's subset pointers:
<<
    doc = cur->doc;
    if (doc != NULL) {
        if (doc->intSubset == (xmlDtdPtr) cur) doc->intSubset = NULL;
        if (doc->extSubset == (xmlDtdPtr) cur) doc->extSubset = NULL;
    }
>> *)
Definition unlink_from_doc (cur : ptr) : io unit :=
  doc ← read n_doc cur;
  when (bool_decide (doc ≠ NULL)) (
    i ← read n_intSubset doc;
    when (bool_decide (i = cur)) (write set_intSubset doc NULL);;
    e ← read n_extSubset doc;
    when (bool_decide (e = cur)) (write set_extSubset doc NULL)).

(** Then the parent lets go of the node:
<<
    if (cur->parent != NULL) {
        parent = cur->parent;
        if (cur->type == XML_ATTRIBUTE_NODE) {
            if (parent->properties == (xmlAttrPtr) cur)
                parent->properties = ((xmlAttrPtr) cur)->next;
        } else {
            if (parent->children == cur) parent->children = cur->next;
            if (parent->last == cur) parent->last = cur->prev;
        }
        cur->parent = NULL;
    }
>> *)
Definition unlink_from_parent (ty : xmlElementType) (cur : ptr) : io unit :=
  parent ← read n_parent cur;
  when (bool_decide (parent ≠ NULL)) (
    (if bool_decide (ty = XML_ATTRIBUTE_NODE) then
       pr ← read n_properties parent;
       when (bool_decide (pr = cur)) (nx ← read n_next cur; write set_properties parent nx)
     else
       c ← read n_children parent;
       when (bool_decide (c = cur)) (nx ← read n_next cur; write set_children parent nx);;
       l ← read n_last parent;
       when (bool_decide (l = cur)) (pv ← read n_prev cur; write set_last parent pv));;
    write set_parent cur NULL).

(** And the siblings close ranks:
<<
    if (cur->next != NULL) cur->next->prev = cur->prev;
    if (cur->prev != NULL) cur->prev->next = cur->next;
    cur->next = cur->prev = NULL;
>> *)
Definition unlink_from_siblings (cur : ptr) : io unit :=
  nx ← read n_next cur;
  when (bool_decide (nx ≠ NULL)) (pv ← read n_prev cur; write set_prev nx pv);;
  pv ← read n_prev cur;
  when (bool_decide (pv ≠ NULL)) (nx ← read n_next cur; write set_next pv nx);;
  write set_prev cur NULL;;
  write set_next cur NULL.

Definition xmlUnlinkNode (cur : ptr) : io unit :=
  log (EvUnlinkNode cur);;
  if bool_decide (cur = NULL) then mret tt else
  ty ← read n_type cur;
  if bool_decide (ty = XML_NAMESPACE_DECL) then mret tt else
  when (bool_decide (ty = XML_DTD_NODE)) (unlink_from_doc cur);;
  unlink_from_parent ty cur;;
  unlink_from_siblings cur.

(** The global error: [None] is the state with code [XML_ERR_OK], for
    which [xmlGetLastError] returns a null pointer. *)
Definition xmlResetLastError : io unit :=
  λ w, Some (tt, add_event EvResetLastError (set_lastError None w)).

Definition xmlGetLastError : io (option xmlError) :=
  λ w, Some (lastError w, add_event EvGetLastError w).

(** [xmlFree] of a string held by value leaves only its trace. *)
Definition xmlFree (s : string) : io unit := log (EvFree s).

(** [printf("errorcode %d\n", errCode)] *)
Definition printf_errorcode (errCode : Z) : io unit := log (EvPrintf errCode).

(** ** Host callbacks *)

(** Modelled from the spec: the host's write sink [xmlNodeWriteCallback]
    is declared in [helper.h] and defined by the host runtime, neither
    of which is among the sources.  The spec's write callback receives
    the sink handle, the chunk and its length; the call is recorded in
    the trace and touches nothing the adapter or the library owns. *)
Definition xmlNodeWriteCallback (ctx buffer : ptr) (len : Z) : io unit :=
  log (EvNodeWriteCallback ctx buffer len).

(** Modelled from the spec: the host's removal notification
    [xmlUnlinkNodeCallback] is declared in [helper.h] and defined by the
    host runtime, neither of which is among the sources.  The spec's
    node-removal callback receives the removed child and the host
    handle and takes over the child's lifetime; the call is recorded in
    the trace and the tree is left as it is. *)
Definition xmlUnlinkNodeCallback (child gonode : ptr) : io unit :=
  log (EvUnlinkNodeCallback child gonode).

(** ** [string.h] over the byte memory *)

Definition NUL : ascii := Ascii.zero.

(** The byte of a C string at an index; the terminator and everything
    past it read as NUL, which is also what [strncpy] pads with. *)
Definition char_at (s : string) (i : Z) : ascii :=
  if bool_decide (0 <= i) then default NUL (String.get (Z.to_nat i) s) else NUL.

(** [PTRDIFF_MAX] of [stdint.h] for pointers of [ptr_bits] bits: no
    object and no mapping of the process holds more bytes than this. *)
Definition PTRDIFF_MAX : Z := Eval cbv in 2 ^ (ptr_bits - 1) - 1.

(** [strncpy(dst, src, n)] writes exactly [n] bytes: the bytes of [src]
    up to its terminator, then NUL padding.  A count above
    [PTRDIFF_MAX] is more than whatever [dst] points into can hold: the
    padding runs off the end of the process's memory and the call never
    returns, which is a fault. *)
Definition strncpy (dst : ptr) (src : string) (n : Z) : io unit :=
  λ w, if bool_decide (n <= PTRDIFF_MAX) then
         Some (tt, set_mem (λ a, if bool_decide (dst <= a < dst + n)
                                 then char_at src (a - dst) else mem w a) w)
       else None.

(** [dst[i] = c] *)
Definition poke (dst : ptr) (i : Z) (c : ascii) : io unit :=
  λ w, Some (tt, set_mem (λ a, if bool_decide (a = dst + i) then c else mem w a) w).

(** ** The adapter: the functions of [helper.c] *)

(** [xml_write_callback] *)
Definition xml_write_callback (ctx buffer : ptr) (len : Z) : io Z :=
  when (bool_decide (len > 0)) (xmlNodeWriteCallback ctx buffer len);;
  mret len.

(** [close_callback] *)
Definition close_callback (ctx : ptr) : io Z := mret 0.

(** [xmlNodePtrCheck] *)
Definition xmlNodePtrCheck (node : ptr) : Z :=
  if bool_decide (node = ptr_of_int (-1)) then 0 else 1.

(** [xmlUnlinkNodeWithCheck] *)
Definition xmlUnlinkNodeWithCheck (node : ptr) : io Z :=
  parent ← read n_parent node;
  if bool_decide (xmlNodePtrCheck parent ≠ 0) then
    xmlUnlinkNode node;;
    mret 1
  else mret 0.

(** A save context as [xmlSaveToIO] builds it: the two callbacks and the
    sink they are bound to. *)
Record xmlSaveCtxt := XmlSaveCtxt {
  sc_iowrite : ptr -> ptr -> Z -> io Z;
  sc_ioclose : ptr -> io Z;
  sc_ioctx : ptr
}.

(** Hand each chunk to the write callback, in order.  The library looks
    at the callback's result only to detect a negative (error) value,
    which [xml_write_callback] never produces for a chunk the library
    passes; the chunks are therefore fixed by the oracle. *)
Fixpoint flush (ctxt : xmlSaveCtxt) (cs : list chunk) : io unit :=
  match cs with
  | [] => mret tt
  | c :: cs' =>
      log (EvIoWrite (sc_ioctx ctxt) (c_buf c) (c_len c));;
      sc_iowrite ctxt (sc_ioctx ctxt) (c_buf c) (c_len c);;
      flush ctxt cs'
  end.

Section Adapter.
Context `{Libxml2}.

(** *** Library entry points whose outcome is an oracle *)

Definition xmlReadMemory (buffer : ptr) (size : Z) (url encoding : ptr)
    (options : Z) : io ptr :=
  λ w, let r := lib_xmlReadMemory w buffer size url encoding options in
       Some (pr_doc r,
             add_event (EvReadMemory buffer size url encoding options)
               (set_lastError (pr_lastError r) (set_heap (pr_heap r) w))).

(** Returns the result code and the value of [*lst] after the call,
    given its value [lst0] before. *)
Definition xmlParseInNodeContext (node data : ptr) (datalen options : Z)
    (lst0 : ptr) : io (Z * ptr) :=
  λ w, let r := lib_xmlParseInNodeContext w node data datalen options in
       Some ((fr_code r, default lst0 (fr_lst r)),
             add_event (EvParseInNodeContext node data datalen options)
               (set_lastError (fr_lastError r) (set_heap (fr_heap r) w))).

Definition xmlFreeDoc (cur : ptr) : io unit :=
  log (EvFreeDoc cur);;
  when (bool_decide (cur ≠ NULL))
    (λ w, Some (tt, set_heap (lib_xmlFreeDoc (heap w) cur) w)).

Definition xmlDocGetRootElement (doc : ptr) : io ptr :=
  λ w, Some (lib_xmlDocGetRootElement (heap w) doc,
             add_event (EvDocGetRootElement doc) w).

Definition xmlDocCopyNode (node doc : ptr) (extended : Z) : io ptr :=
  λ w, let r := lib_xmlDocCopyNode (heap w) node doc extended in
       Some (r.1, add_event (EvDocCopyNode node doc extended) (set_heap r.2 w)).

Definition xmlEncodeSpecialChars (doc : ptr) (input : option string)
    : io (option string) :=
  λ w, Some (lib_xmlEncodeSpecialChars (heap w) doc input,
             add_event (EvEncodeSpecialChars doc input) w).

Definition xmlNodeSetContent (cur : ptr) (content : string) : io unit :=
  λ w, Some (tt, add_event (EvNodeSetContent cur content)
                   (set_heap (lib_xmlNodeSetContent (heap w) cur content) w)).

(** [xmlSaveToIO]: a null context when the library cannot open one. *)
Definition xmlSaveToIO (iowrite : ptr -> ptr -> Z -> io Z)
    (ioclose : ptr -> io Z) (ioctx encoding : ptr) (options : Z)
    : io (option xmlSaveCtxt) :=
  λ w, Some (if lib_save_opens w ioctx encoding options
             then Some (XmlSaveCtxt iowrite ioclose ioctx) else None,
             add_event (EvSaveToIO ioctx encoding options) w).

(** [xmlSaveTree]: [-1] at once on a null context; otherwise whatever
    fills the output buffer on the way is flushed to the write
    callback. *)
Definition xmlSaveTree (ctxt : option xmlSaveCtxt) (node : ptr) : io Z :=
  match ctxt with
  | None => log (EvSaveTree None node);; mret (-1)
  | Some c =>
      log (EvSaveTree (Some (sc_ioctx c)) node);;
      w ← observe;
      let r := lib_save_tree w (sc_ioctx c) node in
      flush c r.1;;
      mret r.2
  end.

(** [xmlSaveClose]: [-1] at once on a null context; otherwise the rest
    of the output is flushed, the close callback runs, and the context
    is gone. *)
Definition xmlSaveClose (ctxt : option xmlSaveCtxt) : io Z :=
  match ctxt with
  | None => log (EvSaveClose None);; mret (-1)
  | Some c =>
      log (EvSaveClose (Some (sc_ioctx c)));;
      w ← observe;
      let r := lib_save_close w (sc_ioctx c) in
      flush c r.1;;
      log (EvIoClose (sc_ioctx c));;
      sc_ioclose c (sc_ioctx c);;
      mret r.2
  end.

(** [xmlDocDumpToString]: the buffer the library allocated, as is; the
    size it reports is dropped. *)
Definition xmlDocDumpToString (doc encoding : ptr) (format : Z) : io (option string) :=
  λ w, Some (lib_xmlDocDumpFormatMemoryEnc (heap w) doc encoding format,
             add_event (EvDocDumpFormatMemoryEnc doc encoding format) w).

(** [xmlParse] *)
Definition xmlParse (buffer : ptr) (buffer_len : Z) (url encoding : ptr)
    (options : Z) (error_buffer : ptr) (error_buffer_len : Z) : io ptr :=
  xmlResetLastError;;
  doc ← xmlReadMemory buffer buffer_len url encoding options;
  when (bool_decide (doc = NULL)) (
    xmlFreeDoc doc;;
    error ← xmlGetLastError;
    match error with
    | Some e =>
        when (bool_decide (error_buffer ≠ NULL)
              && bool_decide (e_level e >= XML_ERR_ERROR)) (
          match e_message e with
          | Some message =>
              strncpy error_buffer message
                      (size_t_of_int (wrap_int (error_buffer_len - 1)));;
              poke error_buffer (wrap_int (error_buffer_len - 1)) NUL
          | None => mret tt
          end)
    | None => mret tt
    end);;
  mret doc.

(** [xmlParseFragment] *)
Definition xmlParseFragment (doc buffer : ptr) (buffer_len : Z) (url : ptr)
    (options : Z) (error_buffer : ptr) (error_buffer_len : Z) : io ptr :=
  '(errCode, root_element) ←
      xmlParseInNodeContext doc buffer buffer_len options NULL;
  if bool_decide (errCode ≠ XML_ERR_OK) then
    when (bool_decide (error_buffer ≠ NULL) && bool_decide (error_buffer_len > 0))
         (mret tt);;
    printf_errorcode errCode;;
    mret NULL
  else mret root_element.

(** [xmlParseFragmentAsDoc] *)
Definition xmlParseFragmentAsDoc (doc buffer : ptr) (buffer_len : Z)
    (url encoding : ptr) (options : Z) (error_buffer : ptr)
    (error_buffer_len : Z) : io ptr :=
  tmpDoc ← xmlReadMemory buffer buffer_len url encoding options;
  if bool_decide (tmpDoc = NULL) then mret NULL else
  tmpRoot ← xmlDocGetRootElement tmpDoc;
  if bool_decide (tmpRoot = NULL) then mret NULL else
  tmpRoot ← xmlDocCopyNode tmpRoot doc 1;
  xmlFreeDoc tmpDoc;;
  mret tmpRoot.

(** The [while (child)] loop of [xmlSetContent].  [fuel] bounds the
    iterations; running out of it is reported like a fault. *)
Fixpoint unlink_children (fuel : nat) (gonode child : ptr) : io unit :=
  if bool_decide (child = NULL) then mret tt else
  match fuel with
  | O => λ _, None
  | S fuel' =>
      next ← read n_next child;
      xmlUnlinkNode child;;
      xmlUnlinkNodeCallback child gonode;;
      unlink_children fuel' gonode next
  end.

(** [xmlSetContent] *)
Definition xmlSetContent (fuel : nat) (gonode node : ptr)
    (content : option string) : io unit :=
  child ← read n_children node;
  doc ← read n_doc node;
  encoded ← xmlEncodeSpecialChars doc content;
  match encoded with
  | Some enc =>
      unlink_children fuel gonode child;;
      xmlNodeSetContent node enc;;
      xmlFree enc
  | None => mret tt
  end.

(** [xmlSaveNode] *)
Definition xmlSaveNode (wbuffer node encoding : ptr) (options : Z) : io Z :=
  savectx ← xmlSaveToIO xml_write_callback close_callback wbuffer encoding options;
  xmlSaveTree savectx node;;
  xmlSaveClose savectx.

End Adapter.

(** * Specification vocabulary *)

(** Partial correctness: whenever [m] returns from [w], [Q] holds of the
    result. *)
Definition wlp {A} (m : io A) (Q : A -> world -> Prop) (w : world) : Prop :=
  match m w with Some (x, w') => Q x w' | None => True end.

(** The events a run from [w] to [w'] appended to the trace. *)
Definition new_events (w w' : world) : list event :=
  drop (length (trace w)) (trace w').

(** The library invoking the write callback, or the write callback
    forwarding to the host. *)
Definition is_write_event (e : event) : bool :=
  match e with
  | EvIoWrite _ _ _ | EvNodeWriteCallback _ _ _ => true
  | _ => false
  end.

Definition is_save_close (e : event) : bool :=
  match e with EvSaveClose _ => true | _ => false end.

Definition is_io_close (e : event) : bool :=
  match e with EvIoClose _ => true | _ => false end.

(** What one flush through [xml_write_callback] leaves in the trace. *)
Definition flush_events (ioctx : ptr) (cs : list chunk) : list event :=
  flat_map (λ c, EvIoWrite ioctx (c_buf c) (c_len c) ::
                 if bool_decide (c_len c > 0)
                 then [EvNodeWriteCallback ioctx (c_buf c) (c_len c)] else []) cs.

(** The message [xmlParse] copies out after a failed parse, if any: the
    error exists, the buffer pointer is not null, the level is at least
    [XML_ERR_ERROR], and the message pointer is not null. *)
Definition reported_message (error : option xmlError) (error_buffer : ptr)
    : option string :=
  match error with
  | Some e =>
      if bool_decide (error_buffer ≠ NULL) && bool_decide (e_level e >= XML_ERR_ERROR)
      then e_message e else None
  | None => None
  end.

(** Memory after the [strncpy] and the terminator store of [xmlParse],
    when the copy returns. *)
Definition message_written (m : Z -> ascii) (error_buffer : ptr)
    (error_buffer_len : Z) (message : string) : Z -> ascii :=
  λ a, if bool_decide (a = error_buffer + wrap_int (error_buffer_len - 1)) then NUL
       else if bool_decide (error_buffer <= a
                            < error_buffer + size_t_of_int (wrap_int (error_buffer_len - 1)))
       then char_at message (a - error_buffer)
       else m a.

(** ** Heap vocabulary *)

(** Two heaps agree on what [view] shows of every object. *)
Definition same {V} (view : xmlNode -> V) (h h' : gmap Z xmlNode) : Prop :=
  ∀ q, view <$> obj h' q = view <$> obj h q.

(** What the tree structure consists of. *)
Definition links (n : xmlNode) : xmlElementType * ptr * ptr * ptr * ptr * ptr * ptr :=
  (n_type n, n_children n, n_last n, n_parent n, n_next n, n_prev n, n_doc n).

(** What [unlink_from_doc] looks at and what it changes. *)
Definition subsets (n : xmlNode) : xmlElementType * ptr * ptr * ptr :=
  (n_type n, n_doc n, n_intSubset n, n_extSubset n).

(** A node no tree holds any more. *)
Definition detached (h : gmap Z xmlNode) (c : ptr) : Prop :=
  ∃ n, obj h c = Some n ∧ n_parent n = NULL ∧ n_next n = NULL ∧ n_prev n = NULL.

(** A node as [xmlUnlinkNode] leaves it: detached, and, if it is a DTD
    node, no longer a subset of its document. *)
Definition settled (h : gmap Z xmlNode) (cur : ptr) : Prop :=
  ∃ n, obj h cur = Some n
       ∧ n_parent n = NULL ∧ n_next n = NULL ∧ n_prev n = NULL
       ∧ (n_type n = XML_DTD_NODE -> n_doc n ≠ NULL ->
          ∃ d, obj h (n_doc n) = Some d
               ∧ n_intSubset d ≠ cur ∧ n_extSubset d ≠ cur).

(** [chain h node prev cs]: the nodes [cs] are, in this order, a run of
    siblings under [node] that starts after [prev]: each one names
    [node] as its parent, its predecessor as [prev] and its successor as
    [next] (null after the last).  None is an attribute or a namespace
    declaration, and a DTD node's document pointer is null or valid. *)
Fixpoint chain (h : gmap Z xmlNode) (node prev : ptr) (cs : list ptr) : Prop :=
  match cs with
  | [] => True
  | c :: cs' =>
      (∃ n, obj h c = Some n
            ∧ n_parent n = node ∧ n_prev n = prev ∧ n_next n = hd NULL cs'
            ∧ n_type n ≠ XML_ATTRIBUTE_NODE ∧ n_type n ≠ XML_NAMESPACE_DECL
            ∧ (n_type n = XML_DTD_NODE ->
               n_doc n = NULL ∨ is_Some (obj h (n_doc n))))
      ∧ chain h node c cs'
  end.

(** [cs] is the list of children of [node], in document order. *)
Definition children_of (h : gmap Z xmlNode) (node : ptr) (cs : list ptr) : Prop :=
  NoDup (node :: cs)
  ∧ (∃ n, obj h node = Some n ∧ n_children n = hd NULL cs)
  ∧ chain h node NULL cs.

(** The calls [xmlSetContent] makes for the children [cs]. *)
Definition unlink_events (gonode : ptr) (cs : list ptr) : list event :=
  flat_map (λ c, [EvUnlinkNode c; EvUnlinkNodeCallback c gonode]) cs.

(** * Concrete libraries and worlds *)

(** ** A reference library

    [escape] follows libxml2's [xmlEncodeSpecialChars] ([entities.c]):
    a null input gives null; otherwise the five characters below are
    replaced and every other byte is copied. *)
Definition escape_char (c : ascii) : string :=
  if Ascii.eqb c "<" then "&lt;"
  else if Ascii.eqb c ">" then "&gt;"
  else if Ascii.eqb c "&" then "&amp;"
  else if Ascii.eqb c (ascii_of_nat 34) then "&quot;"
  else if Ascii.eqb c (ascii_of_nat 13) then "&#13;"
  else String c EmptyString.

Fixpoint escape (s : string) : string :=
  match s with
  | EmptyString => EmptyString
  | String c s' => (escape_char c ++ escape s')%string
  end.

Definition set_content (v : option string) (n : xmlNode) : xmlNode :=
  XmlNode (n_type n) (n_children n) (n_last n) (n_parent n) (n_next n) (n_prev n)
          (n_doc n) (n_properties n) (n_intSubset n) (n_extSubset n) v.

(** The quiet library: [xmlReadMemory] returns no document and raises
    no error (as libxml2 does for a size [<= 0]);
    [xmlParseInNodeContext] reports [XML_ERR_OK] and stores an empty node
    list (as libxml2 does when well-formed content yields no node, for
    instance a reference to an entity with empty replacement text under
    [XML_PARSE_NOENT]); nothing is copied; a save has nothing to flush;
    content is stored as libxml2 stores it in a text node. *)
Definition quiet_lib : Libxml2 := {|
  lib_xmlReadMemory := λ w _ _ _ _ _, ParseResult NULL (heap w) (lastError w);
  lib_xmlParseInNodeContext := λ w _ _ _ _,
    FragmentResult XML_ERR_OK (Some NULL) (heap w) (lastError w);
  lib_xmlDocGetRootElement := λ _ _, NULL;
  lib_xmlDocCopyNode := λ h _ _ _, (NULL, h);
  lib_xmlFreeDoc := λ h _, h;
  lib_xmlEncodeSpecialChars := λ _ _ input, escape <$> input;
  lib_xmlNodeSetContent := λ h cur content,
    match obj h cur with
    | Some n => <[cur := set_content (Some content) n]> h
    | None => h
    end;
  lib_xmlDocDumpFormatMemoryEnc := λ _ _ _ _, None;
  lib_save_opens := λ _ _ _ _, true;
  lib_save_tree := λ _ _ _, ([], 0);
  lib_save_close := λ _ _, ([], 0)
|}.

(** A library whose parser fails on every input and raises [e]. *)
Definition failing_lib (e : xmlError) : Libxml2 := {|
  lib_xmlReadMemory := λ w _ _ _ _ _, ParseResult NULL (heap w) (Some e);
  lib_xmlParseInNodeContext := @lib_xmlParseInNodeContext quiet_lib;
  lib_xmlDocGetRootElement := @lib_xmlDocGetRootElement quiet_lib;
  lib_xmlDocCopyNode := @lib_xmlDocCopyNode quiet_lib;
  lib_xmlFreeDoc := @lib_xmlFreeDoc quiet_lib;
  lib_xmlEncodeSpecialChars := @lib_xmlEncodeSpecialChars quiet_lib;
  lib_xmlNodeSetContent := @lib_xmlNodeSetContent quiet_lib;
  lib_xmlDocDumpFormatMemoryEnc := @lib_xmlDocDumpFormatMemoryEnc quiet_lib;
  lib_save_opens := @lib_save_opens quiet_lib;
  lib_save_tree := @lib_save_tree quiet_lib;
  lib_save_close := @lib_save_close quiet_lib
|}.

(** An empty world whose memory holds ['A'] everywhere. *)
Definition blank_world : world := World ∅ None (λ _, "A"%char) [].

(** ** Small trees *)

Definition leaf (ty : xmlElementType) (parent next prev : ptr) : xmlNode :=
  XmlNode ty NULL NULL parent next prev NULL NULL NULL NULL None.

(** An element at address 10 with one text child at address 20. *)
Definition one_child_heap : gmap Z xmlNode :=
  <[10 := XmlNode XML_ELEMENT_NODE 20 20 NULL NULL NULL NULL NULL NULL NULL None]>
  (<[20 := leaf XML_TEXT_NODE 10 NULL NULL]> ∅).

Definition one_child_world : world := World one_child_heap None (λ _, "A"%char) [].

(** An element at address 10 with the children 20, 30 and 40. *)
Definition three_children_heap : gmap Z xmlNode :=
  <[10 := XmlNode XML_ELEMENT_NODE 20 40 NULL NULL NULL NULL NULL NULL NULL None]>
  (<[20 := leaf XML_TEXT_NODE 10 30 NULL]>
  (<[30 := leaf XML_ELEMENT_NODE 10 40 20]>
  (<[40 := leaf XML_COMMENT_NODE 10 NULL 30]> ∅))).

Definition three_children_world : world :=
  World three_children_heap None (λ _, "A"%char) [].

(** * The rest of [helper.c] and its vocabulary *)

(** [getNodeType] *)
Definition getNodeType (node : ptr) : io xmlElementType := read n_type node.

(** [xmlFreeChars]: [xmlFree] under a null test. *)
Definition xmlFreeChars (buffer : option string) : io unit :=
  match buffer with
  | Some s => xmlFree s
  | None => mret tt
  end.

(** ** Reading a C string back from memory *)

(** The first [n] bytes of a string: what [strncpy] copies of it when
    it is longer than [n]. *)
Fixpoint truncate (n : nat) (s : string) : string :=
  match n, s with
  | S n', String c s' => String c (truncate n' s')
  | _, _ => EmptyString
  end.

(** The C string that starts at address [a], if its terminator comes
    within [fuel] bytes. *)
Fixpoint cstring (m : Z -> ascii) (a : Z) (fuel : nat) : option string :=
  match fuel with
  | O => None
  | S fuel' =>
      if Ascii.eqb (m a) NUL then Some EmptyString
      else String (m a) <$> cstring m (a + 1) fuel'
  end.

(** A string that can be a C string: no NUL among its bytes. *)
Fixpoint no_nul (s : string) : bool :=
  match s with
  | EmptyString => true
  | String c s' => negb (Ascii.eqb c NUL) && no_nul s'
  end.

(** A fixed error, of level [XML_ERR_FATAL], as a failed parse raises it. *)
Definition tag_mismatch : xmlError :=
  XmlError 76 XML_ERR_FATAL (Some "Opening and ending tag mismatch"%string).

(** ** More libraries and worlds for concrete runs *)

(** A document object at address 50 with no child. *)
Definition empty_doc : xmlNode :=
  XmlNode XML_DOCUMENT_NODE NULL NULL NULL NULL NULL 50 NULL NULL NULL None.

(** A library whose parser returns a document without a root element
    (libxml2 does for some inputs in recovery mode). *)
Definition rootless_lib : Libxml2 := {|
  lib_xmlReadMemory := λ w _ _ _ _ _,
    ParseResult 50 (<[50 := empty_doc]> (heap w)) (lastError w);
  lib_xmlParseInNodeContext := @lib_xmlParseInNodeContext quiet_lib;
  lib_xmlDocGetRootElement := λ _ _, NULL;
  lib_xmlDocCopyNode := @lib_xmlDocCopyNode quiet_lib;
  lib_xmlFreeDoc := λ h doc, delete doc h;
  lib_xmlEncodeSpecialChars := @lib_xmlEncodeSpecialChars quiet_lib;
  lib_xmlNodeSetContent := @lib_xmlNodeSetContent quiet_lib;
  lib_xmlDocDumpFormatMemoryEnc := @lib_xmlDocDumpFormatMemoryEnc quiet_lib;
  lib_save_opens := @lib_save_opens quiet_lib;
  lib_save_tree := @lib_save_tree quiet_lib;
  lib_save_close := @lib_save_close quiet_lib
|}.

(** A library whose serializer flushes two chunks, one of them empty,
    while the tree is written and one more at the close; [opens] says
    whether [xmlSaveToIO] obtains a context. *)
Definition saving_lib (opens : bool) : Libxml2 := {|
  lib_xmlReadMemory := @lib_xmlReadMemory quiet_lib;
  lib_xmlParseInNodeContext := @lib_xmlParseInNodeContext quiet_lib;
  lib_xmlDocGetRootElement := @lib_xmlDocGetRootElement quiet_lib;
  lib_xmlDocCopyNode := @lib_xmlDocCopyNode quiet_lib;
  lib_xmlFreeDoc := @lib_xmlFreeDoc quiet_lib;
  lib_xmlEncodeSpecialChars := @lib_xmlEncodeSpecialChars quiet_lib;
  lib_xmlNodeSetContent := @lib_xmlNodeSetContent quiet_lib;
  lib_xmlDocDumpFormatMemoryEnc := λ _ _ _ _, Some "<r/>"%string;
  lib_save_opens := λ _ _ _ _, opens;
  lib_save_tree := λ _ _ _, ([Chunk 1000 4096; Chunk 5096 0], 0);
  lib_save_close := λ _ _, ([Chunk 1000 17], 0)
|}.

(** The calls into the host's write sink among some events. *)
Definition host_writes (es : list event) : list event :=
  List.filter (λ e, match e with EvNodeWriteCallback _ _ _ => true | _ => false end) es.

(** The chunks with something in them. *)
Definition nonempty_chunks (cs : list chunk) : list chunk :=
  List.filter (λ c, bool_decide (c_len c > 0)) cs.

(** ** Families: a node with all its children *)

(** [c] is a child of [node] that stands between [prev] and [nxt]. *)
Definition sibling (h : gmap Z xmlNode) (node prev nxt c : ptr) : Prop :=
  ∃ n, obj h c = Some n
       ∧ n_parent n = node ∧ n_prev n = prev ∧ n_next n = nxt
       ∧ n_type n ≠ XML_ATTRIBUTE_NODE ∧ n_type n ≠ XML_NAMESPACE_DECL
       ∧ (n_type n = XML_DTD_NODE -> n_doc n = NULL ∨ is_Some (obj h (n_doc n))).

(** [cs] is a run of consecutive children of [node] that comes after
    [prev] and before [nxt]. *)
Fixpoint seg (h : gmap Z xmlNode) (node prev : ptr) (cs : list ptr) (nxt : ptr) : Prop :=
  match cs with
  | [] => True
  | c :: cs' => sibling h node prev (hd nxt cs') c ∧ seg h node c cs' nxt
  end.

(** [node] and its children [cs] as libxml2 keeps them: [children] and
    [last] name the first and the last child, and the children form one
    doubly linked list from null to null. *)
Definition family (h : gmap Z xmlNode) (node : ptr) (cs : list ptr) : Prop :=
  NoDup (node :: cs)
  ∧ (∃ n, obj h node = Some n
          ∧ n_children n = hd NULL cs ∧ n_last n = default NULL (last cs))
  ∧ seg h node NULL cs NULL.

(** What a node carries whatever tree it hangs in. *)
Definition payload (n : xmlNode) : xmlElementType * ptr * option string :=
  (n_type n, n_doc n, n_content n).

(** The subtree a node holds. *)
Definition subtree (n : xmlNode) : ptr * ptr := (n_children n, n_last n).

(** A text node at address 20 whose parent field holds the sentinel. *)
Definition sentinel_world : world :=
  World (<[20 := leaf XML_TEXT_NODE DETACHED NULL NULL]> ∅) None (λ _, "A"%char) [].
(** * Reasoning about [io] computations *)

Lemma bind_run {A B} (m : io A) (f : A -> io B) (w : world) :
  (m ≫= f) w = match m w with Some (x, w') => f x w' | None => None end.
Proof. reflexivity. Qed.

Lemma ret_run {A} (x : A) (w : world) : (mret x : io A) w = Some (x, w).
Proof. reflexivity. Qed.

Lemma read_run {A} (f : xmlNode -> A) p n w :
  obj (heap w) p = Some n -> read f p w = Some (f n, w).
Proof. intros E. unfold read. by rewrite E. Qed.

Lemma write_run upd p v n w :
  obj (heap w) p = Some n ->
  write upd p v w = Some (tt, set_heap (<[p := upd v n]> (heap w)) w).
Proof. intros E. unfold write. by rewrite E. Qed.

Lemma obj_Some_valid h p n : obj h p = Some n -> p ≠ NULL ∧ p ≠ DETACHED ∧ h !! p = Some n.
Proof.
  unfold obj. case_bool_decide as E; [done|]. intros ->.
  split_and!; [intros ->; apply E; by left | intros ->; apply E; by right | done].
Qed.

Lemma obj_insert h p n q nd :
  obj h p = Some n ->
  obj (<[p := nd]> h) q = if decide (q = p) then Some nd else obj h q.
Proof.
  intros (Hn & Hd & _)%obj_Some_valid. unfold obj.
  destruct (decide (q = p)) as [->|Hne].
  - rewrite bool_decide_eq_false_2; [by rewrite lookup_insert_eq | tauto].
  - case_bool_decide; [done | by rewrite lookup_insert_ne].
Qed.

Lemma wlp_bind {A B} (m : io A) (f : A -> io B) Q w :
  wlp m (λ x, wlp (f x) Q) w -> wlp (m ≫= f) Q w.
Proof. unfold wlp. rewrite bind_run. by destruct (m w) as [[x w']|]. Qed.

Lemma wlp_ret {A} (x : A) (Q : A -> world -> Prop) w : Q x w -> wlp (mret x) Q w.
Proof. done. Qed.

Lemma wlp_read {A} (f : xmlNode -> A) p (Q : A -> world -> Prop) w :
  (∀ n, obj (heap w) p = Some n -> Q (f n) w) -> wlp (read f p) Q w.
Proof. unfold wlp, read. destruct (obj (heap w) p); auto. Qed.

Lemma wlp_write upd p v (Q : unit -> world -> Prop) w :
  (∀ n, obj (heap w) p = Some n -> Q tt (set_heap (<[p := upd v n]> (heap w)) w)) ->
  wlp (write upd p v) Q w.
Proof. unfold wlp, write. destruct (obj (heap w) p); auto. Qed.

Lemma wlp_log e (Q : unit -> world -> Prop) w : Q tt (add_event e w) -> wlp (log e) Q w.
Proof. done. Qed.

Lemma wlp_when (c : bool) body (Q : unit -> world -> Prop) w :
  (c = true -> wlp body Q w) -> (c = false -> Q tt w) -> wlp (when c body) Q w.
Proof. intros Ht Hf. destruct c; [by apply Ht | by apply Hf]. Qed.

Lemma wlp_mono {A} (m : io A) (Q Q' : A -> world -> Prop) w :
  wlp m Q w -> (∀ x w', Q x w' -> Q' x w') -> wlp m Q' w.
Proof. unfold wlp. destruct (m w) as [[x w']|]; auto. Qed.

Lemma wlp_elim {A} (m : io A) Q w x w' : wlp m Q w -> m w = Some (x, w') -> Q x w'.
Proof. unfold wlp. intros Hq E. by rewrite E in Hq. Qed.

(** Run the next bind of a computation applied to a world. *)
Ltac io_step := rewrite bind_run; unfold observe, log, mret, io_ret; simpl.
Ltac io_steps := repeat io_step.

Lemma add_events_app es1 es2 w :
  add_events es2 (add_events es1 w) = add_events (es1 ++ es2) w.
Proof. unfold add_events. simpl. by rewrite app_assoc. Qed.

Lemma add_events_nil w : add_events [] w = w.
Proof. destruct w. unfold add_events. simpl. by rewrite app_nil_r. Qed.

Lemma new_events_add es w : new_events w (add_events es w) = es.
Proof. unfold new_events, add_events. simpl. by rewrite drop_app_length. Qed.

Lemma new_events_app es w w' :
  trace w' = trace w ++ es -> new_events w w' = es.
Proof. unfold new_events. intros ->. by rewrite drop_app_length. Qed.

(** * The write callback *)

(** C8.  [xml_write_callback] forwards a chunk to the host sink exactly
    when its length is strictly positive, and returns the length it was
    given in every case. *)
Theorem xml_write_callback_forwards_nonempty ctx buffer len w :
  ∃ w', xml_write_callback ctx buffer len w = Some (len, w')
        ∧ heap w' = heap w ∧ lastError w' = lastError w ∧ mem w' = mem w
        ∧ new_events w w' =
            (if bool_decide (len > 0)
             then [EvNodeWriteCallback ctx buffer len] else [])
        ∧ (EvNodeWriteCallback ctx buffer len ∈ new_events w w' ↔ len > 0).
Proof.
  unfold xml_write_callback. rewrite bind_run.
  case_bool_decide as Hlen; simpl.
  - eexists. split; [reflexivity|]. unfold add_event.
    rewrite new_events_add. split_and!; try done.
    split; [done | intros _; apply list_elem_of_singleton; done].
  - eexists. split; [reflexivity|].
    replace (new_events w w) with (@nil event)
      by (symmetry; apply new_events_app; by rewrite app_nil_r).
    split_and!; try done.
    split; [by intros ?%elem_of_nil | done].
Qed.

(** * The tree saver *)

Lemma flush_run ioctx cs w :
  flush (XmlSaveCtxt xml_write_callback close_callback ioctx) cs w =
    Some (tt, add_events (flush_events ioctx cs) w).
Proof.
  revert w. induction cs as [|c cs IH]; intros w; simpl.
  - by rewrite add_events_nil.
  - rewrite !bind_run. simpl. unfold xml_write_callback.
    rewrite bind_run. case_bool_decide; simpl.
    + rewrite IH. unfold add_event. by rewrite !add_events_app.
    + rewrite IH. unfold add_event. by rewrite !add_events_app.
Qed.

Lemma flush_events_are_writes ioctx cs :
  forallb is_write_event (flush_events ioctx cs) = true.
Proof.
  induction cs as [|c cs IH]; simpl; [done|].
  case_bool_decide; simpl; exact IH.
Qed.

Lemma writes_hide_save_close es :
  forallb is_write_event es = true -> List.filter is_save_close es = [].
Proof.
  induction es as [|e es IH]; simpl; [done|].
  intros [He Hes]%andb_prop. destruct e; try discriminate; simpl; auto.
Qed.

Lemma writes_hide_io_close es :
  forallb is_write_event es = true -> List.filter is_io_close es = [].
Proof.
  induction es as [|e es IH]; simpl; [done|].
  intros [He Hes]%andb_prop. destruct e; try discriminate; simpl; auto.
Qed.

(** C5.  One [xmlSaveNode] is the three library calls in a row: open,
    save the tree, close.  Whatever the tree step returns, the close
    step runs, exactly once and as the last library call; its result is
    the function's result.  Every invocation of the write callback comes
    before the close callback, which fires once when a context was
    opened. *)
Theorem xmlSaveNode_closes_exactly_once `{Libxml2} wbuffer node encoding options w :
  ∃ savectx w1 tree_ret w2 ret w' tree_writes close_writes,
    xmlSaveToIO xml_write_callback close_callback wbuffer encoding options w
      = Some (savectx, w1)
    ∧ xmlSaveTree savectx node w1 = Some (tree_ret, w2)
    ∧ xmlSaveClose savectx w2 = Some (ret, w')
    ∧ xmlSaveNode wbuffer node encoding options w = Some (ret, w')
    ∧ new_events w w' =
        [EvSaveToIO wbuffer encoding options; EvSaveTree (sc_ioctx <$> savectx) node]
        ++ tree_writes
        ++ [EvSaveClose (sc_ioctx <$> savectx)]
        ++ close_writes
        ++ match savectx with Some _ => [EvIoClose wbuffer] | None => [] end
    ∧ forallb is_write_event tree_writes = true
    ∧ forallb is_write_event close_writes = true
    ∧ length (List.filter is_save_close (new_events w w')) = 1%nat
    ∧ length (List.filter is_io_close (new_events w w')) =
        match savectx with Some _ => 1%nat | None => 0%nat end.
Proof.
  unfold xmlSaveNode, xmlSaveToIO. rewrite bind_run.
  destruct (lib_save_opens w wbuffer encoding options) eqn:Hopen.
  - set (w1 := add_event (EvSaveToIO wbuffer encoding options) w).
    set (w1' := add_event (EvSaveTree (Some wbuffer) node) w1).
    set (r1 := lib_save_tree w1' wbuffer node).
    set (w2 := add_events (flush_events wbuffer r1.1) w1').
    set (w2' := add_event (EvSaveClose (Some wbuffer)) w2).
    set (r2 := lib_save_close w2' wbuffer).
    assert (Htree : xmlSaveTree (Some (XmlSaveCtxt xml_write_callback close_callback wbuffer))
                      node w1 = Some (r1.2, w2)).
    { unfold xmlSaveTree. simpl. io_steps.
      fold w1'. fold r1. rewrite flush_run. by io_steps. }
    assert (Hclose : xmlSaveClose (Some (XmlSaveCtxt xml_write_callback close_callback wbuffer))
                       w2 = Some (r2.2, add_event (EvIoClose wbuffer)
                                          (add_events (flush_events wbuffer r2.1) w2'))).
    { unfold xmlSaveClose. simpl. io_steps.
      fold w2'. fold r2. rewrite flush_run. by io_steps. }
    exists (Some (XmlSaveCtxt xml_write_callback close_callback wbuffer)), w1, r1.2, w2, r2.2.
    eexists. exists (flush_events wbuffer r1.1), (flush_events wbuffer r2.1).
    split; [reflexivity|]. split; [exact Htree|]. split; [exact Hclose|].
    split. { rewrite bind_run, Htree. exact Hclose. }
    assert (Hnew : new_events w (add_event (EvIoClose wbuffer)
                                   (add_events (flush_events wbuffer r2.1) w2')) =
              [EvSaveToIO wbuffer encoding options; EvSaveTree (Some wbuffer) node]
              ++ flush_events wbuffer r1.1 ++ [EvSaveClose (Some wbuffer)]
              ++ flush_events wbuffer r2.1 ++ [EvIoClose wbuffer]).
    { apply new_events_app. unfold w2', w2, w1', w1, add_event, add_events. simpl.
      by rewrite <- !app_assoc. }
    rewrite Hnew. simpl.
    split_and!; try done; try apply flush_events_are_writes.
    + rewrite List.filter_app. simpl. rewrite List.filter_app. simpl.
      rewrite !writes_hide_save_close by apply flush_events_are_writes. done.
    + rewrite List.filter_app. simpl. rewrite List.filter_app. simpl.
      rewrite !writes_hide_io_close by apply flush_events_are_writes. done.
  - exists None. eexists. exists (-1). eexists. exists (-1). eexists. exists [], [].
    split; [reflexivity|]. split; [reflexivity|]. split; [reflexivity|].
    split; [reflexivity|].
    assert (Hnew : ∀ w0 e1 e2 e3,
      new_events w0 (add_event e3 (add_event e2 (add_event e1 w0))) = [e1; e2; e3]).
    { intros. apply new_events_app. unfold add_event, add_events. simpl.
      by rewrite <- !app_assoc. }
    rewrite Hnew. done.
Qed.

(** * The parsers *)

(** [xmlParseFragmentAsDoc], case by case. *)
Lemma xmlParseFragmentAsDoc_run `{Libxml2} doc buffer buffer_len url encoding options
    error_buffer error_buffer_len w :
  let r := lib_xmlReadMemory w buffer buffer_len url encoding options in
  let w1 := add_event (EvReadMemory buffer buffer_len url encoding options)
              (set_lastError (pr_lastError r) (set_heap (pr_heap r) w)) in
  let root := lib_xmlDocGetRootElement (pr_heap r) (pr_doc r) in
  let copy := lib_xmlDocCopyNode (pr_heap r) root doc 1 in
  xmlParseFragmentAsDoc doc buffer buffer_len url encoding options
      error_buffer error_buffer_len w =
    if bool_decide (pr_doc r = NULL) then Some (NULL, w1)
    else if bool_decide (root = NULL)
    then Some (NULL, add_event (EvDocGetRootElement (pr_doc r)) w1)
    else Some (copy.1,
               World (lib_xmlFreeDoc copy.2 (pr_doc r)) (pr_lastError r) (mem w)
                     (trace w ++ [EvReadMemory buffer buffer_len url encoding options;
                                  EvDocGetRootElement (pr_doc r);
                                  EvDocCopyNode root doc 1;
                                  EvFreeDoc (pr_doc r)])).
Proof.
  intros r w1 root copy. unfold xmlParseFragmentAsDoc.
  rewrite bind_run. unfold xmlReadMemory. fold r. fold w1.
  case_bool_decide as Hdoc; [done|].
  rewrite bind_run. unfold xmlDocGetRootElement. simpl. fold root.
  case_bool_decide as Hroot; [done|].
  rewrite bind_run. unfold xmlDocCopyNode. simpl. fold copy.
  unfold xmlFreeDoc. io_steps.
  rewrite bool_decide_eq_true_2 by done. simpl.
  unfold set_heap, add_event, add_events. simpl.
  by rewrite <- !app_assoc.
Qed.

(** C6.  [xmlParseFragmentAsDoc] parses the buffer as a document of its
    own.  Without a document, or without a root element in it, the
    result is null; libxml2 gives one of the two for an empty buffer
    (hypothesis [Hempty]), so an empty buffer yields null.  Otherwise the
    root is deep-copied (extended = 1) into the target document, the
    temporary document is freed, and the copy is returned. *)
Theorem xmlParseFragmentAsDoc_copies_root `{Libxml2} doc buffer buffer_len url encoding
    options error_buffer error_buffer_len w
    (Hempty : buffer_len = 0 ->
       let r := lib_xmlReadMemory w buffer buffer_len url encoding options in
       pr_doc r = NULL ∨ lib_xmlDocGetRootElement (pr_heap r) (pr_doc r) = NULL) :
  let r := lib_xmlReadMemory w buffer buffer_len url encoding options in
  let tmpDoc := pr_doc r in
  let tmpRoot := lib_xmlDocGetRootElement (pr_heap r) tmpDoc in
  let copy := lib_xmlDocCopyNode (pr_heap r) tmpRoot doc 1 in
  ∃ ret w',
    xmlParseFragmentAsDoc doc buffer buffer_len url encoding options
      error_buffer error_buffer_len w = Some (ret, w')
    ∧ mem w' = mem w
    ∧ (tmpDoc = NULL ∨ tmpRoot = NULL ->
         ret = NULL
         ∧ heap w' = pr_heap r
         ∧ EvDocCopyNode tmpRoot doc 1 ∉ new_events w w')
    ∧ (buffer_len = 0 -> ret = NULL)
    ∧ (tmpDoc ≠ NULL -> tmpRoot ≠ NULL ->
         ret = copy.1
         ∧ heap w' = lib_xmlFreeDoc copy.2 tmpDoc
         ∧ new_events w w' =
             [EvReadMemory buffer buffer_len url encoding options;
              EvDocGetRootElement tmpDoc;
              EvDocCopyNode tmpRoot doc 1;
              EvFreeDoc tmpDoc]).
Proof.
  intros r tmpDoc tmpRoot copy.
  pose proof (xmlParseFragmentAsDoc_run doc buffer buffer_len url encoding options
                error_buffer error_buffer_len w) as Hrun.
  simpl in Hrun. fold r in Hrun. fold tmpDoc in Hrun. fold tmpRoot in Hrun.
  fold copy in Hrun. rewrite Hrun. clear Hrun.
  case_bool_decide as Hdoc; [|case_bool_decide as Hroot].
  - eexists _, _. split; [reflexivity|]. split; [done|]. split_and!.
    + intros _. split_and!; [done..|].
      unfold add_event. rewrite new_events_app with (es := [EvReadMemory buffer buffer_len url encoding options]) by done.
      by intros ?%list_elem_of_singleton.
    + done.
    + done.
  - eexists _, _. split; [reflexivity|]. split; [done|]. split_and!.
    + intros _. split_and!; [done..|].
      rewrite new_events_app with (es := [EvReadMemory buffer buffer_len url encoding options;
                                          EvDocGetRootElement tmpDoc]).
      * intros [?|[?|?%elem_of_nil]%elem_of_cons]%elem_of_cons; done.
      * unfold add_event, add_events. simpl. by rewrite <- app_assoc.
    + done.
    + done.
  - eexists _, _. split; [reflexivity|]. split; [done|]. split_and!.
    + intros [?|?]; done.
    + intros Hlen. destruct (Hempty Hlen); done.
    + intros _ _. split_and!; [done..|]. by apply new_events_app.
Qed.

(** The empty buffer, on the quiet library. *)
Lemma xmlParseFragmentAsDoc_copies_root_witness :
  ∃ w', @xmlParseFragmentAsDoc quiet_lib 1 2 0 0 0 0 0 0 blank_world = Some (NULL, w').
Proof.
  destruct (@xmlParseFragmentAsDoc_copies_root quiet_lib 1 2 0 0 0 0 0 0 blank_world
              (λ _, or_introl eq_refl)) as (ret & w' & Hrun & _ & _ & Hnull & _).
  exists w'. rewrite Hrun. rewrite (Hnull eq_refl). reflexivity.
Defined.

(** C7 as stated fails: the library may report [XML_ERR_OK] and store an
    empty node list; the adapter then returns null although the result
    code is OK. *)
Lemma xmlParseFragment_null_although_ok :
  fr_code (@lib_xmlParseInNodeContext quiet_lib blank_world 1 2 3 0) = XML_ERR_OK
  ∧ ∃ w', @xmlParseFragment quiet_lib 1 2 3 0 0 0 0 blank_world = Some (NULL, w').
Proof. split; [reflexivity|]. eexists. reflexivity. Qed.

(** C7, amended.  On a non-OK result code [xmlParseFragment] prints the
    code and returns null; on [XML_ERR_OK] it returns the node list the
    library stored, null if it stored none.  A non-null result therefore
    implies an OK code, and a non-OK code implies a null result.  No byte
    of memory, so no byte of the caller's error buffer, is written in
    either case. *)
Theorem xmlParseFragment_result `{Libxml2} doc buffer buffer_len url options
    error_buffer error_buffer_len w :
  let r := lib_xmlParseInNodeContext w doc buffer buffer_len options in
  ∃ ret w',
    xmlParseFragment doc buffer buffer_len url options error_buffer error_buffer_len w
      = Some (ret, w')
    ∧ mem w' = mem w
    ∧ ret = (if bool_decide (fr_code r ≠ XML_ERR_OK) then NULL
             else default NULL (fr_lst r))
    ∧ new_events w w' =
        EvParseInNodeContext doc buffer buffer_len options ::
        (if bool_decide (fr_code r ≠ XML_ERR_OK) then [EvPrintf (fr_code r)] else [])
    ∧ (fr_code r ≠ XML_ERR_OK -> ret = NULL)
    ∧ (ret ≠ NULL -> fr_code r = XML_ERR_OK).
Proof.
  intros r. unfold xmlParseFragment, xmlParseInNodeContext.
  rewrite bind_run. fold r. simpl.
  case_bool_decide as Hcode.
  - io_steps. unfold when, printf_errorcode.
    destruct (bool_decide (error_buffer ≠ NULL) && bool_decide (error_buffer_len > 0));
      io_steps.
    all: eexists _, _; split; [reflexivity|]; split_and!; try done.
    all: apply new_events_app; unfold add_event, add_events; simpl;
      by rewrite <- app_assoc.
  - eexists _, _. split; [reflexivity|]. split_and!; try done.
    by apply new_events_app.
Qed.

(** * Replacing a node's content *)

(** C3.  When the encoder returns null, [xmlSetContent] stops after the
    encoder call: the heap (children, links, content) is what it was, no
    node was unlinked, no callback ran, and the function, being [void],
    reports nothing. *)
Theorem xmlSetContent_encoding_failure `{Libxml2} fuel gonode node content w nd
    (Hnode : obj (heap w) node = Some nd)
    (Hfail : lib_xmlEncodeSpecialChars (heap w) (n_doc nd) content = None) :
  xmlSetContent fuel gonode node content w =
    Some (tt, add_event (EvEncodeSpecialChars (n_doc nd) content) w).
Proof.
  unfold xmlSetContent.
  rewrite bind_run, (read_run _ _ _ _ Hnode).
  rewrite bind_run, (read_run _ _ _ _ Hnode).
  rewrite bind_run. unfold xmlEncodeSpecialChars. by rewrite Hfail.
Qed.

(** * Serializing *)

(** The text [xmlDocDumpToString] returns is the library's, as is;
    whether it parses back to the same tree is decided inside libxml2. *)
Lemma xmlDocDumpToString_forwards `{Libxml2} doc encoding format w :
  xmlDocDumpToString doc encoding format w =
    Some (lib_xmlDocDumpFormatMemoryEnc (heap w) doc encoding format,
          add_event (EvDocDumpFormatMemoryEnc doc encoding format) w).
Proof. reflexivity. Qed.

(** * [xmlParse] and the error buffer *)

(** [xmlParse], case by case.  The parser oracle is consulted in the
    world whose last error has just been reset.  The one step that can
    fault is the copy of a reported message. *)
Lemma xmlParse_run `{Libxml2} buffer buffer_len url encoding options
    error_buffer error_buffer_len w :
  let w0 := add_event EvResetLastError (set_lastError None w) in
  let r := lib_xmlReadMemory w0 buffer buffer_len url encoding options in
  xmlParse buffer buffer_len url encoding options error_buffer error_buffer_len w =
    if bool_decide (pr_doc r = NULL) then
      match reported_message (pr_lastError r) error_buffer with
      | Some message =>
          if bool_decide (size_t_of_int (wrap_int (error_buffer_len - 1)) <= PTRDIFF_MAX)
          then
            Some (pr_doc r,
                  World (pr_heap r) (pr_lastError r)
                        (message_written (mem w) error_buffer error_buffer_len message)
                        (trace w ++ [EvResetLastError;
                                     EvReadMemory buffer buffer_len url encoding options;
                                     EvFreeDoc NULL; EvGetLastError]))
          else None
      | None =>
          Some (pr_doc r,
                World (pr_heap r) (pr_lastError r) (mem w)
                      (trace w ++ [EvResetLastError;
                                   EvReadMemory buffer buffer_len url encoding options;
                                   EvFreeDoc NULL; EvGetLastError]))
      end
    else
      Some (pr_doc r,
            World (pr_heap r) (pr_lastError r) (mem w)
                  (trace w ++ [EvResetLastError;
                               EvReadMemory buffer buffer_len url encoding options])).
Proof.
  intros w0 r. unfold xmlParse.
  rewrite bind_run. unfold xmlResetLastError. fold w0.
  rewrite bind_run. unfold xmlReadMemory. fold r.
  rewrite bind_run.
  case_bool_decide as Hdoc; simpl.
  - rewrite Hdoc. unfold xmlFreeDoc, xmlGetLastError. io_steps.
    unfold reported_message.
    destruct (pr_lastError r) as [e|] eqn:He; simpl.
    + destruct (bool_decide (error_buffer ≠ NULL) && bool_decide (e_level e >= XML_ERR_ERROR));
        simpl.
      * destruct (e_message e) as [message|]; simpl.
        -- rewrite bind_run. unfold strncpy at 1.
           case_bool_decide as Hfit; [|done].
           unfold poke, message_written, set_mem, add_event, add_events.
           simpl. by rewrite <- !app_assoc.
        -- unfold add_event, add_events. simpl. by rewrite <- !app_assoc.
      * unfold add_event, add_events. simpl. by rewrite <- !app_assoc.
    + unfold add_event, add_events. simpl. by rewrite <- !app_assoc.
  - unfold add_event, add_events. simpl. by rewrite <- !app_assoc.
Qed.

Lemma wrap_int_small i : - 2 ^ 31 <= i < 2 ^ 31 -> wrap_int i = i.
Proof.
  intros Hi. unfold wrap_int.
  rewrite Z.mod_small by lia. lia.
Qed.

(** With a capacity of at least one the count of the copy is the
    capacity less one, which [strncpy] can write. *)
Lemma copy_fits error_buffer_len :
  1 <= error_buffer_len < 2 ^ 31 ->
  size_t_of_int (wrap_int (error_buffer_len - 1)) <= PTRDIFF_MAX.
Proof.
  intros Hlen. rewrite wrap_int_small by lia.
  unfold size_t_of_int, ptr_bits, PTRDIFF_MAX. rewrite Z.mod_small by lia. lia.
Qed.

(** With a capacity of zero or less the count is negative as an [int]
    and wraps to the top of [size_t]. *)
Lemma copy_length_wraps error_buffer_len :
  - 2 ^ 31 < error_buffer_len <= 0 ->
  size_t_of_int (wrap_int (error_buffer_len - 1)) = 2 ^ 64 + error_buffer_len - 1.
Proof.
  intros Hlen. rewrite wrap_int_small by lia.
  unfold size_t_of_int, ptr_bits.
  rewrite <- (Z.mod_add _ 1) by lia. rewrite Z.mod_small by lia. lia.
Qed.

(** [xmlParse] returns when the copy can be written or is not reached;
    the world it returns in. *)
Lemma xmlParse_returns `{Libxml2} buffer buffer_len url encoding options
    error_buffer error_buffer_len w :
  let w0 := add_event EvResetLastError (set_lastError None w) in
  let r := lib_xmlReadMemory w0 buffer buffer_len url encoding options in
  size_t_of_int (wrap_int (error_buffer_len - 1)) <= PTRDIFF_MAX
  ∨ pr_doc r ≠ NULL
  ∨ reported_message (pr_lastError r) error_buffer = None ->
  xmlParse buffer buffer_len url encoding options error_buffer error_buffer_len w =
    Some (pr_doc r,
          if bool_decide (pr_doc r = NULL) then
            World (pr_heap r) (pr_lastError r)
                  (match reported_message (pr_lastError r) error_buffer with
                   | Some message =>
                       message_written (mem w) error_buffer error_buffer_len message
                   | None => mem w
                   end)
                  (trace w ++ [EvResetLastError;
                               EvReadMemory buffer buffer_len url encoding options;
                               EvFreeDoc NULL; EvGetLastError])
          else
            World (pr_heap r) (pr_lastError r) (mem w)
                  (trace w ++ [EvResetLastError;
                               EvReadMemory buffer buffer_len url encoding options])).
Proof.
  intros w0 r Hsafe.
  pose proof (xmlParse_run buffer buffer_len url encoding options
                error_buffer error_buffer_len w) as Hrun.
  simpl in Hrun. fold w0 in Hrun. fold r in Hrun. rewrite Hrun. clear Hrun.
  case_bool_decide as Hdoc; [|done].
  destruct (reported_message (pr_lastError r) error_buffer) as [message|] eqn:Hm; [|done].
  case_bool_decide as Hfit; [done|].
  by destruct Hsafe as [?|[?|?]].
Qed.

(** Inside a buffer of capacity [1 <= n], the copy stays in bounds: the
    first [n - 1] bytes are the message (NUL-padded) and the last byte is
    the terminator; every other address keeps its byte. *)
Lemma message_written_in_bounds m error_buffer error_buffer_len message a :
  1 <= error_buffer_len < 2 ^ 31 ->
  message_written m error_buffer error_buffer_len message a =
    if bool_decide (error_buffer <= a < error_buffer + error_buffer_len) then
      if bool_decide (a < error_buffer + error_buffer_len - 1)
      then char_at message (a - error_buffer) else NUL
    else m a.
Proof.
  intros Hlen. unfold message_written.
  rewrite wrap_int_small by lia.
  unfold size_t_of_int, ptr_bits. rewrite Z.mod_small by lia.
  repeat case_bool_decide; try done; lia.
Qed.

(** For a capacity of at least one, [xmlParse] does what the buffer
    contract says: reset, parse, and only after a null result read the
    last error; the buffer is written exactly when a message is
    reported, and then within its bounds. *)
Lemma xmlParse_reports_error `{Libxml2} buffer buffer_len url encoding options
    error_buffer error_buffer_len w :
  1 <= error_buffer_len < 2 ^ 31 ->
  let r := lib_xmlReadMemory (add_event EvResetLastError (set_lastError None w))
             buffer buffer_len url encoding options in
  ∃ w',
    xmlParse buffer buffer_len url encoding options error_buffer error_buffer_len w
      = Some (pr_doc r, w')
    ∧ new_events w w' =
        [EvResetLastError; EvReadMemory buffer buffer_len url encoding options]
        ++ (if bool_decide (pr_doc r = NULL) then [EvFreeDoc NULL; EvGetLastError] else [])
    ∧ ∀ a, mem w' a =
        match (if bool_decide (pr_doc r = NULL)
               then reported_message (pr_lastError r) error_buffer else None) with
        | Some message =>
            if bool_decide (error_buffer <= a < error_buffer + error_buffer_len) then
              if bool_decide (a < error_buffer + error_buffer_len - 1)
              then char_at message (a - error_buffer) else NUL
            else mem w a
        | None => mem w a
        end.
Proof.
  intros Hlen r.
  pose proof (xmlParse_returns buffer buffer_len url encoding options
                error_buffer error_buffer_len w (or_introl (copy_fits _ Hlen))) as Hrun.
  simpl in Hrun. fold r in Hrun. rewrite Hrun. clear Hrun.
  eexists. split; [reflexivity|].
  case_bool_decide as Hdoc.
  - split; [by apply new_events_app|]. intros a. simpl.
    destruct (reported_message (pr_lastError r) error_buffer); [|done].
    by apply message_written_in_bounds.
  - split; [by apply new_events_app | done].
Qed.

(** C1 holds for every capacity of at least one
    ([xmlParse_reports_error]) and breaks at capacity zero.  There the
    count passed to [strncpy] is [(size_t)(0 - 1)], the largest
    [size_t]; no copy of that many bytes returns, so the call ends
    inside [strncpy]: neither the terminator store nor the [return] is
    reached and the caller gets no document, no message and no control
    back.  With the buffer at address 100 and a one-byte message the
    call faults at capacity zero, while at capacity one it returns null
    with the empty string in the buffer. *)
Theorem xmlParse_faults_on_empty_buffer :
  let lib := failing_lib (XmlError 76 XML_ERR_ERROR (Some "x")) in
  size_t_of_int (wrap_int (0 - 1)) = 2 ^ 64 - 1
  ∧ (∀ w, strncpy 100 "x" (2 ^ 64 - 1) w = None)
  ∧ @xmlParse lib 1 5 0 0 0 100 0 blank_world = None
  ∧ ∃ w', @xmlParse lib 1 5 0 0 0 100 1 blank_world = Some (NULL, w')
          ∧ mem w' 100 = NUL.
Proof.
  intros lib. split_and!.
  - reflexivity.
  - intros w. reflexivity.
  - pose proof (@xmlParse_run lib 1 5 0 0 0 100 0 blank_world) as Hrun.
    simpl in Hrun. exact Hrun.
  - pose proof (@xmlParse_run lib 1 5 0 0 0 100 1 blank_world) as Hrun.
    simpl in Hrun. eexists. split; [exact Hrun|]. reflexivity.
Qed.

(** * The tree: [xmlUnlinkNode] *)

Lemma same_refl {V} (view : xmlNode -> V) h : same view h h.
Proof. by intros q. Qed.

Lemma same_trans {V} (view : xmlNode -> V) h1 h2 h3 :
  same view h1 h2 -> same view h2 h3 -> same view h1 h3.
Proof. intros H12 H23 q. by rewrite H23, H12. Qed.

(** A store that the view does not see. *)
Lemma same_write {V} (view : xmlNode -> V) h p n n' :
  obj h p = Some n -> view n' = view n -> same view h (<[p := n']> h).
Proof.
  intros Hp Hview q. rewrite (obj_insert _ _ _ _ _ Hp).
  destruct (decide (q = p)) as [->|]; [|done]. rewrite Hp. simpl. by rewrite Hview.
Qed.

Lemma same_obj {V} (view : xmlNode -> V) h h' q n :
  same view h h' -> obj h q = Some n -> ∃ n', obj h' q = Some n' ∧ view n' = view n.
Proof.
  intros Hs Hq. specialize (Hs q). rewrite Hq in Hs. simpl in Hs.
  destruct (obj h' q) as [n'|]; [|done]. exists n'. split; [done|]. by injection Hs.
Qed.

Lemma same_obj_inv {V} (view : xmlNode -> V) h h' q n' :
  same view h h' -> obj h' q = Some n' -> ∃ n, obj h q = Some n ∧ view n' = view n.
Proof.
  intros Hs Hq. specialize (Hs q). rewrite Hq in Hs. simpl in Hs.
  destruct (obj h q) as [n|]; [|done]. exists n. split; [done|]. by injection Hs.
Qed.

(** The shape of every proof that a block leaves a view alone: walk the
    block, carrying [same view h0 (heap w)] along; a read keeps the
    world, a write extends the relation by [same_write]. *)
Ltac same_walk Hs :=
  repeat first
    [ progress cbv beta
    | apply wlp_ret; exact Hs
    | apply wlp_bind
    | apply wlp_read; intros ? ?
    | apply wlp_when; intros ?
    | lazymatch goal with
      | |- wlp (if ?c then _ else _) _ _ => destruct c
      end
    | lazymatch goal with
      | |- wlp (write ?upd ?p ?v) _ ?w =>
          let n := fresh "n" in
          let Hn := fresh "Hn" in
          let Hs' := fresh "Hs" in
          apply wlp_write; intros n Hn;
          lazymatch type of Hs with
          | same ?view ?h0 ?h =>
              pose proof (same_trans view h0 h _ Hs
                            (same_write view h p n (upd v n) Hn eq_refl)) as Hs'
          end;
          clear Hs; rename Hs' into Hs; simpl
      end
    | exact Hs ].

Lemma unlink_from_doc_same_links cur h0 w :
  same links h0 (heap w) ->
  wlp (unlink_from_doc cur) (λ _ w', same links h0 (heap w')) w.
Proof. intros Hs. unfold unlink_from_doc. same_walk Hs. Qed.

Lemma unlink_from_parent_same_subsets ty cur h0 w :
  same subsets h0 (heap w) ->
  wlp (unlink_from_parent ty cur) (λ _ w', same subsets h0 (heap w')) w.
Proof. intros Hs. unfold unlink_from_parent. same_walk Hs. Qed.

Lemma unlink_from_siblings_same_subsets cur h0 w :
  same subsets h0 (heap w) ->
  wlp (unlink_from_siblings cur) (λ _ w', same subsets h0 (heap w')) w.
Proof. intros Hs. unfold unlink_from_siblings. same_walk Hs. Qed.

Lemma unlink_from_siblings_same_parent cur h0 w :
  same n_parent h0 (heap w) ->
  wlp (unlink_from_siblings cur) (λ _ w', same n_parent h0 (heap w')) w.
Proof. intros Hs. unfold unlink_from_siblings. same_walk Hs. Qed.

Lemma wlp_conj {A} (m : io A) (Q1 Q2 : A -> world -> Prop) w :
  wlp m Q1 w -> wlp m Q2 w -> wlp m (λ x w', Q1 x w' ∧ Q2 x w') w.
Proof. unfold wlp. destruct (m w) as [[x w']|]; auto. Qed.

(** Walk a block without keeping track of anything but what was read. *)
Ltac wlp_walk :=
  repeat first
    [ progress cbv beta
    | apply wlp_bind
    | apply wlp_read; intros ? ?; cbn [heap set_heap] in *
    | apply wlp_when; intros ?
    | lazymatch goal with
      | |- wlp (if ?c then _ else _) _ _ => destruct c
      end
    | apply wlp_write; intros ? ?; cbn [heap set_heap] in *
    | apply wlp_ret ].

Lemma obj_insert_eq h p n nd : obj h p = Some n -> obj (<[p := nd]> h) p = Some nd.
Proof. intros Hp. rewrite (obj_insert _ _ _ _ _ Hp). by rewrite decide_True. Qed.

Lemma obj_insert_ne h p n q nd :
  obj h p = Some n -> q ≠ p -> obj (<[p := nd]> h) q = obj h q.
Proof. intros Hp Hne. rewrite (obj_insert _ _ _ _ _ Hp). by rewrite decide_False. Qed.

(** After [unlink_from_doc], the document of [cur] (if any) names [cur]
    in neither subset pointer. *)
Lemma unlink_from_doc_clears cur n0 w :
  obj (heap w) cur = Some n0 ->
  wlp (unlink_from_doc cur)
      (λ _ w', n_doc n0 ≠ NULL ->
               ∃ d, obj (heap w') (n_doc n0) = Some d
                    ∧ n_intSubset d ≠ cur ∧ n_extSubset d ≠ cur) w.
Proof.
  intros Hcur. pose proof (obj_Some_valid _ _ _ Hcur) as (Hnull & _ & _).
  unfold unlink_from_doc.
  apply wlp_bind, wlp_read. intros n Hn. rewrite Hcur in Hn. injection Hn as <-.
  apply wlp_when; [|intros Hdoc%bool_decide_eq_false; by intros ?].
  intros _.
  apply wlp_bind, wlp_read. intros d Hd.
  apply wlp_bind, wlp_when.
  - intros Hi%bool_decide_eq_true.
    apply wlp_write. intros d' Hd'. rewrite Hd in Hd'. injection Hd' as <-. cbv beta.
    apply wlp_bind, wlp_read. simpl. intros d1 Hd1.
    rewrite (obj_insert_eq _ _ _ _ Hd) in Hd1. injection Hd1 as <-.
    apply wlp_when.
    + intros He%bool_decide_eq_true. apply wlp_write. simpl. intros d2 Hd2.
      rewrite (obj_insert_eq _ _ _ _ Hd) in Hd2. injection Hd2 as <-.
      intros _. eexists. split.
      { eapply obj_insert_eq. by eapply obj_insert_eq. }
      simpl. split; congruence.
    + intros He%bool_decide_eq_false. simpl. intros _. eexists. split.
      { by eapply obj_insert_eq. }
      simpl. split; [congruence | done].
  - intros Hi%bool_decide_eq_false. cbv beta.
    apply wlp_bind, wlp_read. intros d1 Hd1. rewrite Hd in Hd1. injection Hd1 as <-.
    apply wlp_when.
    + intros He%bool_decide_eq_true. apply wlp_write. simpl. intros d2 Hd2.
      rewrite Hd in Hd2. injection Hd2 as <-.
      intros _. eexists. split.
      { by eapply obj_insert_eq. }
      simpl. split; [done | congruence].
    + intros He%bool_decide_eq_false. intros _. by exists d.
Qed.

(** After [unlink_from_parent], [cur] has no parent. *)
Lemma unlink_from_parent_clears ty cur w :
  wlp (unlink_from_parent ty cur)
      (λ _ w', ∃ n, obj (heap w') cur = Some n ∧ n_parent n = NULL) w.
Proof.
  unfold unlink_from_parent.
  apply wlp_bind, wlp_read. intros n Hn.
  apply wlp_when.
  - intros _. wlp_walk.
    all: eexists; split; [by eapply obj_insert_eq | done].
  - intros Hp%bool_decide_eq_false. exists n. split; [done|].
    by destruct (decide (n_parent n = NULL)).
Qed.

(** After [unlink_from_siblings], [cur] has no siblings. *)
Lemma unlink_from_siblings_clears cur w :
  wlp (unlink_from_siblings cur)
      (λ _ w', ∃ n, obj (heap w') cur = Some n ∧ n_next n = NULL ∧ n_prev n = NULL) w.
Proof.
  unfold unlink_from_siblings. wlp_walk.
  all: lazymatch goal with
       | H1 : obj ?h ?c = Some ?n1, H2 : obj (<[?c := set_prev NULL ?n1]> ?h) ?c = Some ?n2
         |- _ =>
           rewrite (obj_insert_eq _ _ _ _ H1) in H2; injection H2 as <-;
           eexists; split; [eapply obj_insert_eq; by eapply obj_insert_eq | done]
       end.
Qed.

(** [xmlUnlinkNode] leaves the node settled: no parent, no siblings,
    and no document that still names it as a subset. *)
Lemma xmlUnlinkNode_settles cur n0 w :
  obj (heap w) cur = Some n0 ->
  n_type n0 ≠ XML_NAMESPACE_DECL ->
  wlp (xmlUnlinkNode cur) (λ _ w', settled (heap w') cur) w.
Proof.
  intros Hcur Hns. pose proof (obj_Some_valid _ _ _ Hcur) as (Hnull & _ & _).
  unfold xmlUnlinkNode. apply wlp_bind, wlp_log. cbv beta.
  rewrite bool_decide_eq_false_2 by done.
  apply wlp_bind, wlp_read. simpl. intros n Hn. rewrite Hcur in Hn. injection Hn as <-.
  rewrite bool_decide_eq_false_2 by done.
  set (w0 := add_event (EvUnlinkNode cur) w).
  (* the [XML_DTD_NODE] case *)
  apply wlp_bind.
  apply wlp_mono with
    (Q := λ _ w1, same links (heap w0) (heap w1)
                  ∧ (n_type n0 = XML_DTD_NODE -> n_doc n0 ≠ NULL ->
                     ∃ d, obj (heap w1) (n_doc n0) = Some d
                          ∧ n_intSubset d ≠ cur ∧ n_extSubset d ≠ cur)).
  { apply wlp_when.
    - intros Hdtd%bool_decide_eq_true. apply wlp_conj.
      + apply unlink_from_doc_same_links, same_refl.
      + eapply wlp_mono; [by apply (unlink_from_doc_clears cur n0)|].
        cbv beta. auto.
    - intros Hdtd%bool_decide_eq_false. split; [apply same_refl | done]. }
  intros _ w1 [Hlinks Hdoc].
  (* the parent *)
  apply wlp_bind.
  eapply wlp_mono.
  { apply wlp_conj;
      [apply (unlink_from_parent_same_subsets _ _ (heap w1)), same_refl
      |apply unlink_from_parent_clears]. }
  cbv beta. intros _ w2 [Hsub2 (n2 & Hn2 & Hparent2)].
  (* the siblings *)
  eapply wlp_mono.
  { apply wlp_conj;
      [apply wlp_conj;
         [apply (unlink_from_siblings_same_subsets _ (heap w2)), same_refl
         |apply (unlink_from_siblings_same_parent _ (heap w2)), same_refl]
      |apply unlink_from_siblings_clears]. }
  cbv beta. intros _ w3 [[Hsub3 Hpar3] (n3 & Hn3 & Hnext3 & Hprev3)].
  exists n3. split; [done|].
  destruct (same_obj_inv _ _ _ _ _ Hpar3 Hn3) as (n2' & Hn2' & Hp).
  rewrite Hn2 in Hn2'. injection Hn2' as <-.
  split_and!; [congruence | done | done |].
  (* the document, seen through the views *)
  destruct (same_obj_inv _ _ _ _ _ Hsub3 Hn3) as (n2' & Hn2' & Hv3).
  rewrite Hn2 in Hn2'. injection Hn2' as <-.
  destruct (same_obj_inv _ _ _ _ _ Hsub2 Hn2) as (n1 & Hn1 & Hv2).
  destruct (same_obj_inv _ _ _ _ _ Hlinks Hn1) as (n0' & Hn0' & Hv1).
  change (heap w0) with (heap w) in Hn0'. rewrite Hcur in Hn0'. injection Hn0' as <-.
  unfold subsets in Hv3, Hv2. unfold links in Hv1.
  intros Hty Hd.
  assert (n_type n3 = n_type n0) as Ety by congruence.
  assert (n_doc n3 = n_doc n0) as Edoc by congruence.
  rewrite Ety in Hty. rewrite Edoc in Hd |- *.
  destruct (Hdoc Hty Hd) as (d1 & Hd1 & Hi & He).
  destruct (same_obj _ _ _ _ _ Hsub2 Hd1) as (d2 & Hd2 & Hvd2).
  destruct (same_obj _ _ _ _ _ Hsub3 Hd2) as (d3 & Hd3 & Hvd3).
  exists d3. split; [done|]. unfold subsets in Hvd2, Hvd3.
  split; congruence.
Qed.

Lemma write_noop upd p v n w :
  obj (heap w) p = Some n -> upd v n = n -> write upd p v w = Some (tt, w).
Proof.
  intros Hp Hfix. rewrite (write_run _ _ _ _ _ Hp), Hfix.
  apply obj_Some_valid in Hp as (_ & _ & Hp).
  rewrite insert_id by done. by destruct w.
Qed.

Lemma when_false_run body w : when false body w = Some (tt, w).
Proof. reflexivity. Qed.

Lemma when_true_run body w : when true body w = body w.
Proof. reflexivity. Qed.

(** Run a read whose object is known. *)
Ltac run_read H := rewrite bind_run, (read_run _ _ _ _ H); cbv beta iota.

(** On a settled node [xmlUnlinkNode] finds nothing to do: the heap is
    left as it is. *)
Lemma xmlUnlinkNode_settled_noop cur w :
  settled (heap w) cur ->
  xmlUnlinkNode cur w = Some (tt, add_event (EvUnlinkNode cur) w).
Proof.
  intros (n & Hcur & Hparent & Hnext & Hprev & Hdoc).
  pose proof (obj_Some_valid _ _ _ Hcur) as (Hnull & _ & _).
  unfold xmlUnlinkNode. rewrite bind_run. unfold log. cbv beta iota.
  rewrite bool_decide_eq_false_2 by done.
  change (heap w) with (heap (add_event (EvUnlinkNode cur) w)) in Hcur, Hdoc.
  generalize dependent (add_event (EvUnlinkNode cur) w). clear w. intros w Hcur Hdoc.
  run_read Hcur.
  case_bool_decide as Hns; [done|].
  rewrite bind_run.
  assert (Hdtd : when (bool_decide (n_type n = XML_DTD_NODE)) (unlink_from_doc cur) w
                 = Some (tt, w)).
  { case_bool_decide as Hty; [|done]. rewrite when_true_run. unfold unlink_from_doc.
    run_read Hcur.
    case_bool_decide as Hd; [|done]. rewrite when_true_run.
    destruct (Hdoc Hty Hd) as (d & Hobj & Hi & He).
    run_read Hobj.
    rewrite bool_decide_eq_false_2 by done.
    rewrite bind_run, when_false_run. cbv beta iota.
    run_read Hobj.
    by rewrite bool_decide_eq_false_2 by done. }
  rewrite Hdtd. cbv beta iota. rewrite bind_run.
  unfold unlink_from_parent.
  run_read Hcur. rewrite Hparent.
  rewrite bool_decide_eq_false_2 by (by intros ?).
  rewrite when_false_run. cbv beta iota.
  unfold unlink_from_siblings.
  run_read Hcur. rewrite Hnext.
  rewrite bool_decide_eq_false_2 by (by intros ?).
  rewrite bind_run, when_false_run. cbv beta iota.
  run_read Hcur. rewrite Hprev.
  rewrite bool_decide_eq_false_2 by (by intros ?).
  rewrite bind_run, when_false_run. cbv beta iota.
  rewrite bind_run.
  rewrite (write_noop set_prev _ _ n) by (done || (destruct n; simpl in *; by subst)).
  cbv beta iota.
  by rewrite (write_noop set_next _ _ n) by (done || (destruct n; simpl in *; by subst)).
Qed.

Lemma xmlUnlinkNode_namespace_noop cur n w :
  obj (heap w) cur = Some n ->
  n_type n = XML_NAMESPACE_DECL ->
  xmlUnlinkNode cur w = Some (tt, add_event (EvUnlinkNode cur) w).
Proof.
  intros Hcur Hns. pose proof (obj_Some_valid _ _ _ Hcur) as (Hnull & _ & _).
  unfold xmlUnlinkNode. rewrite bind_run. unfold log. cbv beta iota.
  rewrite bool_decide_eq_false_2 by done.
  change (heap w) with (heap (add_event (EvUnlinkNode cur) w)) in Hcur.
  run_read Hcur. rewrite (bool_decide_eq_true_2 _ Hns). reflexivity.
Qed.

(** * The guarded unlink *)

Lemma xmlNodePtrCheck_spec p :
  xmlNodePtrCheck p = if bool_decide (p = DETACHED) then 0 else 1.
Proof. reflexivity. Qed.

Lemma xmlUnlinkNodeWithCheck_run node n w :
  obj (heap w) node = Some n ->
  xmlUnlinkNodeWithCheck node w =
    if bool_decide (n_parent n = DETACHED) then Some (0, w)
    else (xmlUnlinkNode node ≫= λ _, mret 1) w.
Proof.
  intros Hnode. unfold xmlUnlinkNodeWithCheck. run_read Hnode.
  rewrite xmlNodePtrCheck_spec.
  destruct (bool_decide (n_parent n = DETACHED)); reflexivity.
Qed.

(** C10.  [xmlNodePtrCheck] answers 0 for the pointer [(void* )(-1)] and
    for no other, so it answers 1 for a null pointer.  A node whose
    parent is null is therefore unlinked by [xmlUnlinkNodeWithCheck],
    which returns 1; and null is what [xmlUnlinkNode] itself leaves in
    the parent field of the node it unlinked. *)
Theorem xmlNodePtrCheck_rejects_only_the_sentinel :
  (∀ p, xmlNodePtrCheck p = 0 ↔ p = DETACHED)
  ∧ (∀ p, xmlNodePtrCheck p = 1 ↔ p ≠ DETACHED)
  ∧ xmlNodePtrCheck NULL = 1
  ∧ (∀ w node n,
       obj (heap w) node = Some n -> n_parent n = NULL ->
       xmlUnlinkNodeWithCheck node w = (xmlUnlinkNode node ≫= λ _, mret 1) w
       ∧ ∀ r w', xmlUnlinkNodeWithCheck node w = Some (r, w') ->
                 r = 1 ∧ xmlUnlinkNode node w = Some (tt, w'))
  ∧ (∀ w node n w',
       obj (heap w) node = Some n -> n_type n ≠ XML_NAMESPACE_DECL ->
       xmlUnlinkNode node w = Some (tt, w') ->
       ∃ n', obj (heap w') node = Some n' ∧ n_parent n' = NULL).
Proof.
  split_and!.
  - intros p. rewrite xmlNodePtrCheck_spec. by case_bool_decide.
  - intros p. rewrite xmlNodePtrCheck_spec. by case_bool_decide.
  - reflexivity.
  - intros w node n Hnode Hparent.
    pose proof (xmlUnlinkNodeWithCheck_run _ _ _ Hnode) as Hrun.
    rewrite Hparent in Hrun. rewrite bool_decide_eq_false_2 in Hrun by done.
    split; [done|]. intros r w'. rewrite Hrun, bind_run.
    destruct (xmlUnlinkNode node w) as [[[] w1]|]; [|done].
    intros [= <- <-]. done.
  - intros w node n w' Hnode Hns Hrun.
    pose proof (wlp_elim _ _ _ _ _ (xmlUnlinkNode_settles _ _ _ Hnode Hns) Hrun)
      as (n' & Hn' & Hparent & _).
    by exists n'.
Qed.

(** A node with a null parent, unlinked and answered with 1. *)
Lemma xmlNodePtrCheck_rejects_only_the_sentinel_witness :
  ∃ w', xmlUnlinkNodeWithCheck 10 one_child_world = Some (1, w').
Proof.
  destruct xmlNodePtrCheck_rejects_only_the_sentinel as (_ & _ & _ & Hnull & _).
  destruct (Hnull one_child_world 10 _ eq_refl eq_refl) as [Hrun _].
  rewrite Hrun. eexists. reflexivity.
Defined.

(** C2 as stated fails: the first call unlinks the node and leaves a
    null parent; the second call finds a parent other than
    [(void* )(-1)] and returns 1 again. *)
Lemma xmlUnlinkNodeWithCheck_twice_returns_true :
  ∃ w1 w2, xmlUnlinkNodeWithCheck 20 one_child_world = Some (1, w1)
           ∧ xmlUnlinkNodeWithCheck 20 w1 = Some (1, w2).
Proof. eexists _, _. split; reflexivity. Qed.

(** C2, amended.  [xmlUnlinkNodeWithCheck] returns 0 and changes
    nothing when the node's parent is [(void* )(-1)]; for every other
    parent, null included, it calls [xmlUnlinkNode] and returns 1.  When
    a call has returned 1, the next call in a row returns 1 as well: it
    calls [xmlUnlinkNode] once more, which leaves the heap as it is. *)
Theorem xmlUnlinkNodeWithCheck_guard node n w
    (Hnode : obj (heap w) node = Some n) :
  (n_parent n = DETACHED -> xmlUnlinkNodeWithCheck node w = Some (0, w))
  ∧ (n_parent n ≠ DETACHED ->
     xmlUnlinkNodeWithCheck node w = (xmlUnlinkNode node ≫= λ _, mret 1) w)
  ∧ (∀ w1, xmlUnlinkNodeWithCheck node w = Some (1, w1) ->
           xmlUnlinkNodeWithCheck node w1 = Some (1, add_event (EvUnlinkNode node) w1)).
Proof.
  pose proof (xmlUnlinkNodeWithCheck_run _ _ _ Hnode) as Hrun.
  split_and!.
  - intros Hp. rewrite Hrun, (bool_decide_eq_true_2 _ Hp). reflexivity.
  - intros Hp. rewrite Hrun, (bool_decide_eq_false_2 _ Hp). reflexivity.
  - intros w1. rewrite Hrun. case_bool_decide as Hp; [done|].
    rewrite bind_run.
    destruct (xmlUnlinkNode node w) as [[[] w1']|] eqn:Hunlink; [|done].
    intros [= <-].
    destruct (decide (n_type n = XML_NAMESPACE_DECL)) as [Hns|Hns].
    + rewrite (xmlUnlinkNode_namespace_noop _ _ _ Hnode Hns) in Hunlink.
      injection Hunlink as <-.
      assert (Hnode1 : obj (heap (add_event (EvUnlinkNode node) w)) node = Some n) by done.
      rewrite (xmlUnlinkNodeWithCheck_run _ _ _ Hnode1).
      rewrite bool_decide_eq_false_2 by done.
      by rewrite bind_run, (xmlUnlinkNode_namespace_noop _ _ _ Hnode1 Hns).
    + pose proof (wlp_elim _ _ _ _ _ (xmlUnlinkNode_settles _ _ _ Hnode Hns) Hunlink)
        as Hsettled.
      destruct Hsettled as (n1 & Hn1 & Hparent & Hrest).
      rewrite (xmlUnlinkNodeWithCheck_run _ _ _ Hn1), Hparent.
      rewrite bool_decide_eq_false_2 by done.
      rewrite bind_run, xmlUnlinkNode_settled_noop; [done|].
      exists n1. destruct Hrest as (? & ? & ?). by split_and!.
Qed.

(** The attached child of [one_child_world], unlinked twice in a row. *)
Lemma xmlUnlinkNodeWithCheck_guard_witness :
  ∃ w1, xmlUnlinkNodeWithCheck 20 one_child_world = Some (1, w1)
        ∧ xmlUnlinkNodeWithCheck 20 w1 = Some (1, add_event (EvUnlinkNode 20) w1).
Proof.
  eexists. split; [reflexivity|].
  eapply (xmlUnlinkNodeWithCheck_guard 20 _ one_child_world eq_refl).
  reflexivity.
Defined.

(** * Emptying a node: the loop of [xmlSetContent] *)

Lemma obj_insert_valid h p q nd :
  p ≠ NULL -> p ≠ DETACHED ->
  obj (<[p := nd]> h) q = if decide (q = p) then Some nd else obj h q.
Proof.
  intros Hn Hd. unfold obj.
  destruct (decide (q = p)) as [->|Hne].
  - rewrite bool_decide_eq_false_2; [by rewrite lookup_insert_eq | tauto].
  - case_bool_decide; [done | by rewrite lookup_insert_ne].
Qed.

(** Decide the tests and heap lookups of a run from what is known. *)
Ltac settle_tests :=
  repeat match goal with
    | |- context [bool_decide ?P] =>
        first [ rewrite (bool_decide_eq_true_2 P) by (done || congruence)
              | rewrite (bool_decide_eq_false_2 P) by (done || congruence) ]
    | |- context [decide (?x = ?y)] =>
        first [ rewrite (decide_True (P := x = y)) by (done || congruence)
              | rewrite (decide_False (P := x = y)) by (done || congruence) ]
    | |- context [obj (<[?p := ?nd]> ?h) ?q] =>
        rewrite (obj_insert_valid h p q nd) by done
    | H : obj ?h ?p = Some _ |- context [obj ?h ?p] => rewrite H
    | |- _ => progress cbn [heap set_heap when n_type n_children n_last n_parent n_next
                            n_prev n_doc n_properties n_intSubset n_extSubset n_content
                            set_children set_last set_parent set_next set_prev]
    | |- _ => progress cbv beta iota
    | |- _ => progress unfold mret, io_ret, mbind, io_bind
    end.


Lemma set_heap_id w : set_heap (heap w) w = w.
Proof. by destruct w. Qed.

(** [unlink_from_doc] runs to the end when the document pointer of the
    node is null or valid, and shows nothing of itself in the links. *)
Lemma unlink_from_doc_runs c cd w :
  obj (heap w) c = Some cd ->
  n_doc cd = NULL ∨ is_Some (obj (heap w) (n_doc cd)) ->
  ∃ h1, unlink_from_doc c w = Some (tt, set_heap h1 w) ∧ same links (heap w) h1.
Proof.
  intros Hc Hdoc.
  assert (∃ h1, unlink_from_doc c w = Some (tt, set_heap h1 w)) as [h1 Hrun].
  { unfold unlink_from_doc, read, write. unfold mbind, io_bind, mret, io_ret.
    destruct Hdoc as [Hd|[d Hd]].
    - settle_tests. exists (heap w). by rewrite set_heap_id.
    - pose proof (obj_Some_valid _ _ _ Hd) as (Hd0 & Hd1 & _).
      destruct (decide (n_intSubset d = c)), (decide (n_extSubset d = c)).
      all: settle_tests; try (eexists; reflexivity).
      exists (heap w). by rewrite set_heap_id. }
  exists h1. split; [done|].
  exact (wlp_elim _ _ _ _ _ (unlink_from_doc_same_links c (heap w) w (same_refl _ _)) Hrun).
Qed.

Lemma same_valid {V} (view : xmlNode -> V) h h' q :
  same view h h' -> is_Some (obj h q) -> is_Some (obj h' q).
Proof. intros Hs [n Hn]. destruct (same_obj _ _ _ _ _ Hs Hn) as (n' & Hn' & _). eauto. Qed.



Lemma obj_NULL h : obj h NULL = None.
Proof. unfold obj. by rewrite bool_decide_eq_true_2 by (by left). Qed.




(** * Concrete runs *)


(** A null content string on the quiet library: the encoder returns
    null and the three children stay where they are. *)
Lemma xmlSetContent_encoding_failure_witness :
  @xmlSetContent quiet_lib 3 77 10 None three_children_world =
    Some (tt, add_event (EvEncodeSpecialChars NULL None) three_children_world).
Proof.
  exact (@xmlSetContent_encoding_failure quiet_lib 3 77 10 None three_children_world
           _ eq_refl eq_refl).
Defined.


(** * More about [xmlParse] *)

Lemma char_at_cons c s i : 0 <= i -> char_at (String c s) (i + 1) = char_at s i.
Proof.
  intros Hi. unfold char_at. rewrite !bool_decide_eq_true_2 by lia.
  replace (Z.to_nat (i + 1)) with (S (Z.to_nat i)) by lia. reflexivity.
Qed.

Lemma char_at_0 c s : char_at (String c s) 0 = c.
Proof. reflexivity. Qed.

(** A memory that holds, from [a] on, the bytes of [s] and then NULs up
    to [a + n], reads back as the first [n] bytes of [s]. *)
Lemma cstring_truncated m s : ∀ a n,
  no_nul s = true ->
  (∀ i, 0 <= i < Z.of_nat n -> m (a + i) = char_at s i) ->
  m (a + Z.of_nat n) = NUL ->
  cstring m a (S n) = Some (truncate n s).
Proof.
  induction s as [|c s IH]; intros a n Hs Hm Hend.
  - destruct n as [|n].
    + simpl in *. rewrite Z.add_0_r in Hend. by rewrite Hend.
    + assert (m a = NUL) as H0.
      { specialize (Hm 0 ltac:(lia)). by rewrite Z.add_0_r in Hm. }
      simpl. by rewrite H0.
  - simpl in Hs. apply andb_prop in Hs as [Hc Hs].
    destruct n as [|n].
    + simpl in *. rewrite Z.add_0_r in Hend. by rewrite Hend.
    + assert (m a = c) as H0.
        { specialize (Hm 0 ltac:(lia)). by rewrite Z.add_0_r in Hm. }
      change (cstring m a (S (S n))) with
        (if Ascii.eqb (m a) NUL then Some EmptyString
         else String (m a) <$> cstring m (a + 1) (S n)).
      rewrite H0. apply negb_true_iff in Hc. rewrite Hc.
      rewrite (IH (a + 1) n); [done | done | |].
      * intros i Hi. replace (a + 1 + i) with (a + (i + 1)) by lia.
        rewrite Hm by lia. apply char_at_cons. lia.
      * replace (a + 1 + Z.of_nat n) with (a + Z.of_nat (S n)) by lia. done.
Qed.

Lemma reported_message_Some error_buffer e message :
  error_buffer ≠ NULL -> e_level e >= XML_ERR_ERROR -> e_message e = Some message ->
  reported_message (Some e) error_buffer = Some message.
Proof.
  intros Hb Hl Hm. unfold reported_message.
  by rewrite !bool_decide_eq_true_2 by done.
Qed.

(** X1.  With a capacity of at least one, [xmlParse] writes no byte
    outside the caller's buffer [error_buffer .. error_buffer +
    error_buffer_len - 1], whatever the parser and the error are. *)
Theorem xmlParse_stays_inside_buffer `{Libxml2} buffer buffer_len url encoding options
    error_buffer error_buffer_len w
    (Hcap : 1 <= error_buffer_len < 2 ^ 31) :
  ∃ doc w',
    xmlParse buffer buffer_len url encoding options error_buffer error_buffer_len w
      = Some (doc, w')
    ∧ ∀ a, ¬ (error_buffer <= a < error_buffer + error_buffer_len) ->
           mem w' a = mem w a.
Proof.
  pose proof (xmlParse_returns buffer buffer_len url encoding options
                error_buffer error_buffer_len w (or_introl (copy_fits _ Hcap))) as Hrun.
  simpl in Hrun. rewrite Hrun. clear Hrun. eexists _, _. split; [reflexivity|].
  intros a Ha. case_bool_decide; [|done]. simpl.
  destruct (reported_message _ error_buffer); [|done].
  rewrite message_written_in_bounds by done.
  by rewrite bool_decide_eq_false_2.
Qed.

Lemma xmlParse_stays_inside_buffer_witness :
  ∃ doc w', @xmlParse (failing_lib tag_mismatch) 1 5 0 0 0 100 8 blank_world
              = Some (doc, w')
            ∧ mem w' 99 = "A"%char ∧ mem w' 108 = "A"%char.
Proof.
  destruct (@xmlParse_stays_inside_buffer (failing_lib tag_mismatch) 1 5 0 0 0 100 8
              blank_world ltac:(lia)) as (doc & w' & Hrun & Hout).
  exists doc, w'. split; [exact Hrun|].
  split; (rewrite Hout; [reflexivity | lia]).
Defined.

(** X2.  After a failed parse whose error is reported (non-null buffer,
    level at least [XML_ERR_ERROR], non-null message), a buffer of
    capacity [n >= 1] holds a C string that ends within the buffer: the
    first [n - 1] bytes of the message, the whole message if it is
    shorter. *)
Theorem xmlParse_buffer_reads_back `{Libxml2} buffer buffer_len url encoding options
    error_buffer error_buffer_len w e message
    (Hcap : 1 <= error_buffer_len < 2 ^ 31)
    (Hbuffer : error_buffer ≠ NULL)
    (Hdoc : pr_doc (lib_xmlReadMemory (add_event EvResetLastError (set_lastError None w))
                      buffer buffer_len url encoding options) = NULL)
    (Herror : pr_lastError (lib_xmlReadMemory
                              (add_event EvResetLastError (set_lastError None w))
                              buffer buffer_len url encoding options) = Some e)
    (Hlevel : e_level e >= XML_ERR_ERROR)
    (Hmessage : e_message e = Some message)
    (Hnul : no_nul message = true) :
  ∃ w',
    xmlParse buffer buffer_len url encoding options error_buffer error_buffer_len w
      = Some (NULL, w')
    ∧ cstring (mem w') error_buffer (Z.to_nat error_buffer_len)
      = Some (truncate (Z.to_nat (error_buffer_len - 1)) message).
Proof.
  pose proof (xmlParse_returns buffer buffer_len url encoding options
                error_buffer error_buffer_len w (or_introl (copy_fits _ Hcap))) as Hrun.
  simpl in Hrun. rewrite Hrun. clear Hrun. rewrite Hdoc, Herror.
  rewrite bool_decide_eq_true_2 by done.
  rewrite (reported_message_Some _ _ _ Hbuffer Hlevel Hmessage).
  eexists. split; [reflexivity|]. simpl.
  replace (Z.to_nat error_buffer_len) with (S (Z.to_nat (error_buffer_len - 1))) by lia.
  apply cstring_truncated; [done | |].
  - intros i Hi. rewrite message_written_in_bounds by done.
    rewrite !bool_decide_eq_true_2 by lia. f_equal. lia.
  - rewrite message_written_in_bounds by done.
    rewrite bool_decide_eq_true_2 by lia. by rewrite bool_decide_eq_false_2 by lia.
Qed.

Lemma xmlParse_buffer_reads_back_witness :
  ∃ w', @xmlParse (failing_lib tag_mismatch) 1 5 0 0 0 100 8 blank_world = Some (NULL, w')
        ∧ cstring (mem w') 100 8 = Some "Opening"%string.
Proof.
  exact (@xmlParse_buffer_reads_back (failing_lib tag_mismatch) 1 5 0 0 0 100 8
           blank_world tag_mismatch _ ltac:(lia) ltac:(done) eq_refl eq_refl
           ltac:(by vm_compute) eq_refl eq_refl).
Defined.

(** The cases in which no message is copied. *)
Lemma quiet_reports_nothing doc (error : option xmlError) error_buffer :
  doc ≠ NULL ∨ error_buffer = NULL ∨ error = None
  ∨ (∃ e, error = Some e ∧ (e_level e < XML_ERR_ERROR ∨ e_message e = None)) ->
  doc ≠ NULL ∨ reported_message error error_buffer = None.
Proof.
  intros [?|[Hb|[He|(e & He & Hwhy)]]]; [by left|right..].
  - unfold reported_message. destruct error; [|done].
    by rewrite (bool_decide_eq_false_2 (error_buffer ≠ NULL)) by (by intros ?).
  - by rewrite He.
  - rewrite He. unfold reported_message.
    destruct Hwhy as [Hl|Hm].
    + rewrite (bool_decide_eq_false_2 (e_level e >= XML_ERR_ERROR)) by lia.
      by rewrite andb_false_r.
    + rewrite Hm. by destruct (_ && _).
Qed.

(** X3.  Whatever the capacity, [xmlParse] leaves every byte of memory
    as it was when the parse succeeds, when the buffer pointer is null,
    when the library has no last error, when the error is below
    [XML_ERR_ERROR] (a warning), or when it carries no message. *)
Theorem xmlParse_leaves_memory_alone `{Libxml2} buffer buffer_len url encoding options
    error_buffer error_buffer_len w
    (Hquiet :
       let r := lib_xmlReadMemory (add_event EvResetLastError (set_lastError None w))
                  buffer buffer_len url encoding options in
       pr_doc r ≠ NULL ∨ error_buffer = NULL ∨ pr_lastError r = None
       ∨ ∃ e, pr_lastError r = Some e
              ∧ (e_level e < XML_ERR_ERROR ∨ e_message e = None)) :
  ∃ doc w',
    xmlParse buffer buffer_len url encoding options error_buffer error_buffer_len w
      = Some (doc, w')
    ∧ mem w' = mem w.
Proof.
  simpl in Hquiet.
  apply quiet_reports_nothing in Hquiet.
  pose proof (xmlParse_returns buffer buffer_len url encoding options
                error_buffer error_buffer_len w (or_intror Hquiet)) as Hrun.
  simpl in Hrun. rewrite Hrun. clear Hrun. eexists _, _. split; [reflexivity|].
  case_bool_decide as Hdoc; [|done]. simpl.
  destruct Hquiet as [?|Hnone]; [done|]. by rewrite Hnone.
Qed.

(** The host's own call: a null buffer with length zero. *)
Lemma xmlParse_leaves_memory_alone_witness :
  ∃ doc w', @xmlParse (failing_lib tag_mismatch) 1 5 0 0 0 NULL 0 blank_world
              = Some (doc, w')
            ∧ mem w' = mem blank_world.
Proof.
  exact (@xmlParse_leaves_memory_alone (failing_lib tag_mismatch) 1 5 0 0 0 NULL 0
           blank_world (or_intror (or_introl eq_refl))).
Defined.

(** X4.  With a non-null buffer and a capacity of zero or less, a
    reported error makes [xmlParse] fault: the count [strncpy] is given
    is [(size_t)(error_buffer_len - 1)], that is [2^64 +
    error_buffer_len - 1], which no copy can write; the call ends inside
    [strncpy], before the terminator store, and does not return. *)
Theorem xmlParse_faults_without_capacity `{Libxml2} buffer buffer_len url encoding options
    error_buffer error_buffer_len w e message
    (Hcap : - 2 ^ 31 < error_buffer_len <= 0)
    (Hbuffer : error_buffer ≠ NULL)
    (Hdoc : pr_doc (lib_xmlReadMemory (add_event EvResetLastError (set_lastError None w))
                      buffer buffer_len url encoding options) = NULL)
    (Herror : pr_lastError (lib_xmlReadMemory
                              (add_event EvResetLastError (set_lastError None w))
                              buffer buffer_len url encoding options) = Some e)
    (Hlevel : e_level e >= XML_ERR_ERROR)
    (Hmessage : e_message e = Some message) :
  size_t_of_int (wrap_int (error_buffer_len - 1)) = 2 ^ 64 + error_buffer_len - 1
  ∧ (∀ w1, strncpy error_buffer message
             (size_t_of_int (wrap_int (error_buffer_len - 1))) w1 = None)
  ∧ xmlParse buffer buffer_len url encoding options error_buffer error_buffer_len w
    = None.
Proof.
  pose proof (copy_length_wraps _ Hcap) as Hn.
  assert (¬ size_t_of_int (wrap_int (error_buffer_len - 1)) <= PTRDIFF_MAX) as Hbig.
  { rewrite Hn. unfold PTRDIFF_MAX. lia. }
  split_and!.
  - exact Hn.
  - intros w1. unfold strncpy. by rewrite bool_decide_eq_false_2.
  - pose proof (xmlParse_run buffer buffer_len url encoding options
                  error_buffer error_buffer_len w) as Hrun.
    simpl in Hrun. rewrite Hrun. clear Hrun. rewrite Hdoc, Herror.
    rewrite bool_decide_eq_true_2 by done.
    rewrite (reported_message_Some _ _ _ Hbuffer Hlevel Hmessage).
    by rewrite bool_decide_eq_false_2.
Qed.

Lemma xmlParse_faults_without_capacity_witness :
  @xmlParse (failing_lib tag_mismatch) 1 5 0 0 0 100 (-3) blank_world = None.
Proof.
  exact (proj2 (proj2
    (@xmlParse_faults_without_capacity (failing_lib tag_mismatch) 1 5 0 0 0 100 (-3)
       blank_world tag_mismatch _ ltac:(lia) ltac:(done) eq_refl eq_refl
       ltac:(by vm_compute) eq_refl))).
Defined.

(** X5.  When the copy can be written (a capacity of at least one) or
    is not reached (the parse succeeded or no message is reported),
    [xmlParse] hands the parser a world whose last error is cleared and
    returns what the parser returns; the tree and the last error
    afterwards are the parser's.  Its one call of [xmlFreeDoc] is made
    with a null document, so it frees nothing. *)
Theorem xmlParse_frees_nothing `{Libxml2} buffer buffer_len url encoding options
    error_buffer error_buffer_len w
    (Hsafe :
       let r := lib_xmlReadMemory (add_event EvResetLastError (set_lastError None w))
                  buffer buffer_len url encoding options in
       1 <= error_buffer_len < 2 ^ 31
       ∨ pr_doc r ≠ NULL
       ∨ reported_message (pr_lastError r) error_buffer = None) :
  let w0 := add_event EvResetLastError (set_lastError None w) in
  let r := lib_xmlReadMemory w0 buffer buffer_len url encoding options in
  ∃ w',
    xmlParse buffer buffer_len url encoding options error_buffer error_buffer_len w
      = Some (pr_doc r, w')
    ∧ lastError w0 = None
    ∧ heap w' = pr_heap r
    ∧ lastError w' = pr_lastError r
    ∧ ∀ d, EvFreeDoc d ∈ new_events w w' -> d = NULL.
Proof.
  intros w0 r. simpl in Hsafe. fold w0 in Hsafe. fold r in Hsafe.
  assert (size_t_of_int (wrap_int (error_buffer_len - 1)) <= PTRDIFF_MAX
          ∨ pr_doc r ≠ NULL
          ∨ reported_message (pr_lastError r) error_buffer = None) as Hret.
  { destruct Hsafe as [Hcap|Hquiet]; [left; by apply copy_fits | by right]. }
  pose proof (xmlParse_returns buffer buffer_len url encoding options
                error_buffer error_buffer_len w Hret) as Hrun.
  simpl in Hrun. fold w0 in Hrun. fold r in Hrun. rewrite Hrun. clear Hrun.
  eexists. split; [reflexivity|].
  case_bool_decide; (split_and!; [done..|]); intros d.
  - rewrite new_events_app with (es := [EvResetLastError;
                                        EvReadMemory buffer buffer_len url encoding options;
                                        EvFreeDoc NULL; EvGetLastError]) by done.
    rewrite !elem_of_cons. intros [?|[?|[[= ->]|[?|?%elem_of_nil]]]]; done.
  - rewrite new_events_app with (es := [EvResetLastError;
                                        EvReadMemory buffer buffer_len url encoding options])
      by done.
    rewrite !elem_of_cons. intros [?|[?|?%elem_of_nil]]; done.
Qed.

Lemma xmlParse_frees_nothing_witness :
  ∃ w', @xmlParse (failing_lib tag_mismatch) 1 5 0 0 0 100 8 blank_world = Some (NULL, w')
        ∧ ∀ d, EvFreeDoc d ∈ new_events blank_world w' -> d = NULL.
Proof.
  destruct (@xmlParse_frees_nothing (failing_lib tag_mismatch) 1 5 0 0 0 100 8
              blank_world ltac:(left; lia)) as (w' & Hrun & _ & _ & _ & Hfree).
  exists w'. split; [exact Hrun | exact Hfree].
Defined.

(** * More about the fragment parsers *)

(** X6.  When the parser returns a document that has no root element,
    [xmlParseFragmentAsDoc] returns null without freeing that document:
    no [xmlFreeDoc] is called and the tree is the one the parser left,
    temporary document included. *)
Theorem xmlParseFragmentAsDoc_keeps_rootless_document `{Libxml2} doc buffer buffer_len
    url encoding options error_buffer error_buffer_len w
    (Hdoc : pr_doc (lib_xmlReadMemory w buffer buffer_len url encoding options) ≠ NULL)
    (Hroot : let r := lib_xmlReadMemory w buffer buffer_len url encoding options in
             lib_xmlDocGetRootElement (pr_heap r) (pr_doc r) = NULL) :
  ∃ w',
    xmlParseFragmentAsDoc doc buffer buffer_len url encoding options
      error_buffer error_buffer_len w = Some (NULL, w')
    ∧ heap w' = pr_heap (lib_xmlReadMemory w buffer buffer_len url encoding options)
    ∧ ∀ d, EvFreeDoc d ∉ new_events w w'.
Proof.
  pose proof (xmlParseFragmentAsDoc_run doc buffer buffer_len url encoding options
                error_buffer error_buffer_len w) as Hrun.
  simpl in Hrun, Hroot. rewrite Hrun. clear Hrun.
  rewrite bool_decide_eq_false_2 by done.
  rewrite bool_decide_eq_true_2 by done.
  eexists. split; [reflexivity|]. split; [done|].
  intros d.
  rewrite new_events_app
    with (es := [EvReadMemory buffer buffer_len url encoding options;
                 EvDocGetRootElement
                   (pr_doc (lib_xmlReadMemory w buffer buffer_len url encoding options))]).
  - rewrite !elem_of_cons. intros [?|[?|?%elem_of_nil]]; done.
  - unfold add_event, add_events. simpl. by rewrite <- app_assoc.
Qed.

Lemma xmlParseFragmentAsDoc_keeps_rootless_document_witness :
  ∃ w', @xmlParseFragmentAsDoc rootless_lib 1 2 3 0 0 0 0 0 blank_world = Some (NULL, w')
        ∧ heap w' !! 50 = Some empty_doc.
Proof.
  destruct (@xmlParseFragmentAsDoc_keeps_rootless_document rootless_lib 1 2 3 0 0 0 0 0
              blank_world ltac:(done) eq_refl) as (w' & Hrun & Hheap & _).
  exists w'. split; [exact Hrun|]. rewrite Hheap. reflexivity.
Defined.

(** X7.  [xmlParseFragment] never passes on its [url] argument, and
    its test of the error buffer and its length guards a block that is
    empty: result, tree, memory and trace are the same for every choice
    of the three. *)
Theorem xmlParseFragment_ignores_url_and_error_buffer `{Libxml2} doc buffer buffer_len
    options url error_buffer error_buffer_len url' error_buffer' error_buffer_len' w :
  xmlParseFragment doc buffer buffer_len url options error_buffer error_buffer_len w
  = xmlParseFragment doc buffer buffer_len url' options error_buffer' error_buffer_len' w.
Proof.
  unfold xmlParseFragment. rewrite !bind_run.
  destruct (xmlParseInNodeContext doc buffer buffer_len options NULL w)
    as [[[errCode root_element] w1]|]; [|done].
  case_bool_decide; [|done]. rewrite !bind_run.
  by destruct (_ && _), (_ && _).
Qed.

(** * More about the tree saver *)

Lemma xmlSaveNode_run_open `{Libxml2} wbuffer node encoding options w :
  lib_save_opens w wbuffer encoding options = true ->
  let w_tree := add_event (EvSaveTree (Some wbuffer) node)
                  (add_event (EvSaveToIO wbuffer encoding options) w) in
  let tree := lib_save_tree w_tree wbuffer node in
  let w_close := add_event (EvSaveClose (Some wbuffer))
                   (add_events (flush_events wbuffer tree.1) w_tree) in
  let close := lib_save_close w_close wbuffer in
  xmlSaveNode wbuffer node encoding options w =
    Some (close.2, add_event (EvIoClose wbuffer)
                     (add_events (flush_events wbuffer close.1) w_close)).
Proof.
  intros Hopen w_tree tree w_close close.
  unfold xmlSaveNode, xmlSaveToIO. rewrite bind_run, Hopen. cbv beta iota.
  rewrite bind_run. unfold xmlSaveTree. simpl. io_steps.
  fold w_tree. fold tree. rewrite flush_run. io_steps.
  unfold xmlSaveClose. simpl. io_steps.
  fold w_close. fold close. rewrite flush_run. by io_steps.
Qed.

Lemma host_writes_app es1 es2 : host_writes (es1 ++ es2) = host_writes es1 ++ host_writes es2.
Proof. apply List.filter_app. Qed.

Lemma host_writes_flush ioctx cs :
  host_writes (flush_events ioctx cs) =
    map (λ c, EvNodeWriteCallback ioctx (c_buf c) (c_len c)) (nonempty_chunks cs).
Proof.
  induction cs as [|c cs IH]; [done|]. simpl.
  case_bool_decide; simpl; by rewrite IH.
Qed.

(** X8.  When a save context is opened, the calls [xmlSaveNode] makes
    into the host's write sink are exactly the non-empty chunks the
    library flushed, in the library's order, chunks of the tree step
    before those of the close step, each with the sink [wbuffer] and
    with its address and length unchanged. *)
Theorem xmlSaveNode_forwards_nonempty_chunks `{Libxml2} wbuffer node encoding options w
    (Hopen : lib_save_opens w wbuffer encoding options = true) :
  let w_tree := add_event (EvSaveTree (Some wbuffer) node)
                  (add_event (EvSaveToIO wbuffer encoding options) w) in
  let tree := lib_save_tree w_tree wbuffer node in
  let w_close := add_event (EvSaveClose (Some wbuffer))
                   (add_events (flush_events wbuffer tree.1) w_tree) in
  let close := lib_save_close w_close wbuffer in
  ∃ w',
    xmlSaveNode wbuffer node encoding options w = Some (close.2, w')
    ∧ host_writes (new_events w w') =
        map (λ c, EvNodeWriteCallback wbuffer (c_buf c) (c_len c))
            (nonempty_chunks (tree.1 ++ close.1)).
Proof.
  intros w_tree tree w_close close.
  pose proof (xmlSaveNode_run_open wbuffer node encoding options w Hopen) as Hrun.
  simpl in Hrun. fold w_tree in Hrun. fold tree in Hrun. fold w_close in Hrun.
  fold close in Hrun. rewrite Hrun. eexists. split; [reflexivity|].
  rewrite new_events_app
    with (es := [EvSaveToIO wbuffer encoding options; EvSaveTree (Some wbuffer) node]
                ++ flush_events wbuffer tree.1 ++ [EvSaveClose (Some wbuffer)]
                ++ flush_events wbuffer close.1 ++ [EvIoClose wbuffer]).
  - rewrite !host_writes_app, !host_writes_flush. simpl.
    unfold nonempty_chunks. rewrite List.filter_app, map_app.
    by rewrite app_nil_r.
  - unfold w_close, w_tree, add_event, add_events. simpl. by rewrite <- !app_assoc.
Qed.

Lemma xmlSaveNode_forwards_nonempty_chunks_witness :
  ∃ w', @xmlSaveNode (saving_lib true) 7 10 0 0 blank_world = Some (0, w')
        ∧ host_writes (new_events blank_world w') =
            [EvNodeWriteCallback 7 1000 4096; EvNodeWriteCallback 7 1000 17].
Proof.
  exact (@xmlSaveNode_forwards_nonempty_chunks (saving_lib true) 7 10 0 0 blank_world
           eq_refl).
Defined.

(** X9.  When the library cannot open a save context, [xmlSaveNode]
    still calls [xmlSaveTree] and [xmlSaveClose], both with the null
    context; it returns [-1], and neither the write callback, nor the
    close callback, nor the host's sink is called. *)
Theorem xmlSaveNode_without_context `{Libxml2} wbuffer node encoding options w
    (Hclosed : lib_save_opens w wbuffer encoding options = false) :
  ∃ w',
    xmlSaveNode wbuffer node encoding options w = Some (-1, w')
    ∧ new_events w w' =
        [EvSaveToIO wbuffer encoding options; EvSaveTree None node; EvSaveClose None].
Proof.
  unfold xmlSaveNode, xmlSaveToIO. rewrite bind_run, Hclosed. cbv beta iota.
  eexists. split; [reflexivity|].
  apply new_events_app. unfold add_event, add_events. simpl. by rewrite <- !app_assoc.
Qed.

Lemma xmlSaveNode_without_context_witness :
  ∃ w', @xmlSaveNode (saving_lib false) 7 10 0 0 blank_world = Some (-1, w')
        ∧ new_events blank_world w' = [EvSaveToIO 7 0 0; EvSaveTree None 10; EvSaveClose None].
Proof.
  exact (@xmlSaveNode_without_context (saving_lib false) 7 10 0 0 blank_world eq_refl).
Defined.

(** * More about the tree *)

Lemma obj_DETACHED h : obj h DETACHED = None.
Proof. unfold obj. by rewrite bool_decide_eq_true_2 by (by right). Qed.

(** The parent and sibling parts of [xmlUnlinkNode] on a child [c] of
    [node], wherever it stands among its siblings: [node] lets go of [c]
    as first or last child, the neighbours are linked to each other, and
    [c] keeps nothing but its own subtree.  No other object changes. *)
Lemma unlink_child w node c nd cd :
  obj (heap w) node = Some nd ->
  obj (heap w) c = Some cd ->
  n_parent cd = node ->
  n_type cd ≠ XML_ATTRIBUTE_NODE ->
  node ≠ c ->
  (n_prev cd = NULL ∨
   n_prev cd ≠ c ∧ n_prev cd ≠ node ∧ is_Some (obj (heap w) (n_prev cd))) ->
  (n_next cd = NULL ∨
   n_next cd ≠ c ∧ n_next cd ≠ node ∧ is_Some (obj (heap w) (n_next cd))) ->
  (n_prev cd ≠ NULL -> n_prev cd ≠ n_next cd) ->
  ∃ h',
    (unlink_from_parent (n_type cd) c ≫= λ _, unlink_from_siblings c) w
      = Some (tt, set_heap h' w)
    ∧ obj h' node =
        Some (set_last (if bool_decide (n_last nd = c) then n_prev cd else n_last nd)
                (set_children (if bool_decide (n_children nd = c) then n_next cd
                               else n_children nd) nd))
    ∧ obj h' c = Some (set_next NULL (set_prev NULL (set_parent NULL cd)))
    ∧ (∀ xd, n_next cd ≠ NULL -> obj (heap w) (n_next cd) = Some xd ->
             obj h' (n_next cd) = Some (set_prev (n_prev cd) xd))
    ∧ (∀ pd, n_prev cd ≠ NULL -> obj (heap w) (n_prev cd) = Some pd ->
             obj h' (n_prev cd) = Some (set_next (n_next cd) pd))
    ∧ (∀ q, q ≠ node -> q ≠ c -> q ≠ n_next cd -> q ≠ n_prev cd ->
            obj h' q = obj (heap w) q).
Proof.
  intros Hnode Hc Hparent Hattr Hne Hpv Hnx Hpn.
  pose proof (obj_Some_valid _ _ _ Hnode) as (Hnode0 & Hnode1 & _).
  pose proof (obj_Some_valid _ _ _ Hc) as (Hc0 & Hc1 & _).
  destruct nd as [nty nch nla npa nnx npv ndc npr nis nes nct].
  destruct cd as [cty cch cla cpa cnx cpv cdc cpr cis ces cct].
  simpl in *. subst cpa.
  unfold unlink_from_parent, unlink_from_siblings, read, write.
  unfold mbind, io_bind, mret, io_ret.
  destruct (decide (nch = c)) as [Hch|Hch], (decide (nla = c)) as [Hla|Hla].
  all: destruct Hpv as [->|(Hpv1 & Hpv2 & [pd Hpd])];
    [|pose proof (obj_Some_valid _ _ _ Hpd) as (Hpd0 & Hpd1 & _)].
  all: destruct Hnx as [->|(Hnx1 & Hnx2 & [xd Hxd])];
    [|pose proof (obj_Some_valid _ _ _ Hxd) as (Hxd0 & Hxd1 & _)].
  all: try (assert (cpv ≠ cnx) as Hpn' by (by apply Hpn)).
  all: settle_tests; eexists; (split; [reflexivity|]); split_and!.
  all: try (settle_tests; reflexivity).
  all: try (intros ? Hno; by destruct Hno).
  all: try (intros ? _ Heq; rewrite ?Hxd, ?Hpd in Heq; injection Heq as <-;
            by settle_tests).
  all: try (intros q Hq1 Hq2 Hq3 Hq4; by settle_tests).
Qed.

Lemma hd_app_hd (l1 l2 : list ptr) d : hd d (l1 ++ l2) = hd (hd d l2) l1.
Proof. by destruct l1. Qed.

Lemma seg_app h node l1 : ∀ prev l2 nxt,
  seg h node prev (l1 ++ l2) nxt
  ↔ seg h node prev l1 (hd nxt l2) ∧ seg h node (default prev (last l1)) l2 nxt.
Proof.
  induction l1 as [|c l1 IH]; intros prev l2 nxt.
  - simpl. tauto.
  - assert (default prev (last (c :: l1)) = default c (last l1)) as ->
      by (rewrite last_cons; by destruct (last l1)).
    simpl. rewrite IH, hd_app_hd. tauto.
Qed.

Lemma sibling_frame h h' node prev nxt c :
  sibling h node prev nxt c ->
  links <$> obj h' c = links <$> obj h c ->
  (∀ q, is_Some (obj h q) -> is_Some (obj h' q)) ->
  sibling h' node prev nxt c.
Proof.
  intros (n & Hn & Hparent & Hprev & Hnext & Hattr & Hns & Hdoc) Hl Hvalid.
  rewrite Hn in Hl.
  destruct (obj h' c) as [n'|] eqn:Hn'; [|done]. unfold links in Hl. simpl in Hl.
  injection Hl as Hty Hch Hla Hpa Hnx Hpv Hdc.
  exists n'. split; [done|]. rewrite Hty, Hpa, Hnx, Hpv, Hdc. split_and!; try done.
  intros Hdtd. destruct (Hdoc Hdtd) as [?|?]; [by left | right; by apply Hvalid].
Qed.

Lemma seg_frame h h' node cs : ∀ prev nxt,
  seg h node prev cs nxt ->
  (∀ q, q ∈ cs -> links <$> obj h' q = links <$> obj h q) ->
  (∀ q, is_Some (obj h q) -> is_Some (obj h' q)) ->
  seg h' node prev cs nxt.
Proof.
  induction cs as [|c cs IH]; intros prev nxt; simpl; [done|].
  intros [Hc Hrest] Hlinks Hvalid. split.
  - apply (sibling_frame h); [done | apply Hlinks; by left | done].
  - apply IH; [done | | done]. intros q Hq. apply Hlinks. by right.
Qed.

Lemma chain_seg h node cs : ∀ prev, chain h node prev cs ↔ seg h node prev cs NULL.
Proof.
  induction cs as [|c cs IH]; intros prev; simpl; [done|].
  rewrite IH. unfold sibling. tauto.
Qed.

Lemma family_children_of h node cs : family h node cs -> children_of h node cs.
Proof.
  intros (Hnodup & (n & Hn & Hch & _) & Hseg).
  split_and!; [done | by exists n | by apply chain_seg].
Qed.

(** [xmlUnlinkNode] on a node that is no namespace declaration and whose
    document pointer, if it is a DTD node, can be followed: the
    document part runs without touching a link, and the parent and
    sibling parts run in the heap it leaves. *)
Lemma xmlUnlinkNode_run_parts c cd w :
  obj (heap w) c = Some cd ->
  n_type cd ≠ XML_NAMESPACE_DECL ->
  (n_type cd = XML_DTD_NODE -> n_doc cd = NULL ∨ is_Some (obj (heap w) (n_doc cd))) ->
  ∃ h1,
    same links (heap w) h1
    ∧ xmlUnlinkNode c w =
        (unlink_from_parent (n_type cd) c ≫= λ _, unlink_from_siblings c)
          (set_heap h1 (add_event (EvUnlinkNode c) w)).
Proof.
  intros Hc Hns Hdoc. pose proof (obj_Some_valid _ _ _ Hc) as (Hc0 & _ & _).
  unfold xmlUnlinkNode. rewrite bind_run. unfold log. cbv beta iota.
  rewrite bool_decide_eq_false_2 by done.
  set (w0 := add_event (EvUnlinkNode c) w).
  assert (Hc' : obj (heap w0) c = Some cd) by done.
  run_read Hc'. rewrite bool_decide_eq_false_2 by done.
  rewrite bind_run.
  assert (∃ h1, when (bool_decide (n_type cd = XML_DTD_NODE)) (unlink_from_doc c) w0
                  = Some (tt, set_heap h1 w0)
                ∧ same links (heap w) h1) as (h1 & Hrun1 & Hlinks).
  { case_bool_decide as Hdtd.
    - rewrite when_true_run. by apply (unlink_from_doc_runs c cd w0), Hdoc.
    - exists (heap w). split; [|apply same_refl].
      rewrite when_false_run. by rewrite <- (set_heap_id w0) at 1. }
  rewrite Hrun1. cbv beta iota. exists h1. split; [done|]. by rewrite bind_run.
Qed.

Lemma links_set_next n n' v : links n' = links n -> links (set_next v n') = links (set_next v n).
Proof. unfold links. simpl. intros [= -> -> -> -> _ -> ->]. reflexivity. Qed.

Lemma links_set_prev n n' v : links n' = links n -> links (set_prev v n') = links (set_prev v n).
Proof. unfold links. simpl. intros [= -> -> -> -> -> _ ->]. reflexivity. Qed.

(** A run of children whose last member gets a new successor. *)
Lemma seg_relink_last h h' node prev l p nxt nxt' :
  seg h node prev (l ++ [p]) nxt ->
  (∀ q, q ∈ l -> links <$> obj h' q = links <$> obj h q) ->
  (∃ pd pd', obj h p = Some pd ∧ obj h' p = Some pd'
             ∧ links pd' = links (set_next nxt' pd)) ->
  (∀ q, is_Some (obj h q) -> is_Some (obj h' q)) ->
  seg h' node prev (l ++ [p]) nxt'.
Proof.
  intros [Hl Hp]%seg_app Hlinks (pd & pd' & Hpd & Hpd' & Hrel) Hvalid.
  apply seg_app. simpl in *. split; [by apply (seg_frame h)|]. split; [|done].
  destruct Hp as [(n & Hn & Hparent & Hprev & Hnext & Hattr & Hns & Hdoc) _].
  rewrite Hpd in Hn. injection Hn as <-.
  unfold links in Hrel. simpl in Hrel. injection Hrel as Hty Hch Hla Hpa Hnx Hpv Hdc.
  exists pd'. split; [done|]. rewrite Hty, Hpa, Hnx, Hpv, Hdc. split_and!; try done.
  intros Hdtd. destruct (Hdoc Hdtd) as [?|?]; [by left | right; by apply Hvalid].
Qed.

(** A run of children whose first member gets a new predecessor. *)
Lemma seg_relink_first h h' node prev prev' x l nxt :
  seg h node prev (x :: l) nxt ->
  (∀ q, q ∈ l -> links <$> obj h' q = links <$> obj h q) ->
  (∃ xd xd', obj h x = Some xd ∧ obj h' x = Some xd'
             ∧ links xd' = links (set_prev prev' xd)) ->
  (∀ q, is_Some (obj h q) -> is_Some (obj h' q)) ->
  seg h' node prev' (x :: l) nxt.
Proof.
  simpl. intros [Hx Hl] Hlinks (xd & xd' & Hxd & Hxd' & Hrel) Hvalid.
  split; [|by apply (seg_frame h)].
  destruct Hx as (n & Hn & Hparent & Hprev & Hnext & Hattr & Hns & Hdoc).
  rewrite Hxd in Hn. injection Hn as <-.
  unfold links in Hrel. simpl in Hrel. injection Hrel as Hty Hch Hla Hpa Hnx Hpv Hdc.
  exists xd'. split; [done|]. rewrite Hty, Hpa, Hnx, Hpv, Hdc. split_and!; try done.
  intros Hdtd. destruct (Hdoc Hdtd) as [?|?]; [by left | right; by apply Hvalid].
Qed.

(** The last member of a run of children is a valid object. *)
Lemma seg_last_valid h node prev l p nxt :
  seg h node prev (l ++ [p]) nxt -> is_Some (obj h p).
Proof. intros [_ [(n & Hn & _) _]]%seg_app. eauto. Qed.

(** What [xmlUnlinkNode] does to a family when it is called on one of
    the children. *)
Lemma xmlUnlinkNode_child w node l1 c l2 :
  family (heap w) node (l1 ++ c :: l2) ->
  ∃ cd h',
    obj (heap w) c = Some cd
    ∧ n_parent cd = node
    ∧ xmlUnlinkNode c w = Some (tt, add_event (EvUnlinkNode c) (set_heap h' w))
    ∧ family h' node (l1 ++ l2)
    ∧ (∃ cd', obj h' c = Some cd'
              ∧ n_parent cd' = NULL ∧ n_next cd' = NULL ∧ n_prev cd' = NULL
              ∧ n_children cd' = n_children cd ∧ n_last cd' = n_last cd)
    ∧ (∀ q, q ≠ node -> q ∉ l1 ++ c :: l2 ->
            links <$> obj h' q = links <$> obj (heap w) q)
    ∧ (∀ q, q ≠ node -> subtree <$> obj h' q = subtree <$> obj (heap w) q).
Proof.
  intros (Hnodup & (nd & Hnode & Hch & Hla) & Hseg).
  apply seg_app in Hseg as [Hseg1 Hseg2]. simpl in Hseg1.
  pose proof Hseg2 as [(cd & Hc & Hpar & Hprev & Hnext & Hattr & Hns & Hdoc) Hseg3].
  (* who is who *)
  apply NoDup_cons in Hnodup as [Hnode_out Hnodup].
  apply NoDup_app in Hnodup as (Hnd1 & Hdisj & Hnd2).
  apply NoDup_cons in Hnd2 as [Hc_l2 Hnd2].
  assert (c ∉ l1) as Hc_l1 by (intros Hin; apply (Hdisj c Hin); by left).
  assert (node ≠ c) as Hne.
  { intros ->. apply Hnode_out, elem_of_app. right. by left. }
  assert (node ∉ l1) as Hnode_l1.
  { intros ?. apply Hnode_out, elem_of_app. by left. }
  assert (node ∉ l2) as Hnode_l2.
  { intros ?. apply Hnode_out, elem_of_app. right. by right. }
  assert (∀ x, x ∈ l1 -> x ∉ l2) as Hdisj'.
  { intros x Hx1 Hx2. apply (Hdisj x Hx1). by right. }
  assert (Hpv : n_prev cd = NULL ∨ n_prev cd ∈ l1 ∧ is_Some (obj (heap w) (n_prev cd))).
  { rewrite Hprev. destruct (last l1) as [p|] eqn:Hlast; [right | by left].
    apply last_Some in Hlast as [l1' ->]. simpl. split.
    - apply elem_of_app. right. by left.
    - by eapply seg_last_valid. }
  assert (Hnx : n_next cd = NULL ∨ n_next cd ∈ l2 ∧ is_Some (obj (heap w) (n_next cd))).
  { rewrite Hnext. destruct l2 as [|x l2']; [by left | right]. simpl. split; [by left|].
    destruct Hseg3 as [(xd & Hxd & _) _]. eauto. }
  (* the run *)
  destruct (xmlUnlinkNode_run_parts c cd w Hc Hns Hdoc) as (h1 & Hlinks & Hrun).
  destruct (same_obj _ _ _ _ _ Hlinks Hnode) as (nd1 & Hnode1 & Hnd1').
  destruct (same_obj _ _ _ _ _ Hlinks Hc) as (cd1 & Hc1 & Hcd1).
  pose proof Hnd1' as Hnd1l. pose proof Hcd1 as Hcd1l.
  unfold links in Hnd1', Hcd1.
  injection Hnd1' as _ Hnch Hnla _ _ _ _.
  injection Hcd1 as Hty1 Hcch Hcla Hpa1 Hnx1 Hpv1 _.
  set (w1 := set_heap h1 (add_event (EvUnlinkNode c) w)) in *.
  destruct (unlink_child w1 node c nd1 cd1)
    as (h' & Hrun2 & Hnode' & Hc' & Hnext' & Hprev' & Hframe).
  { done. } { done. } { congruence. } { congruence. } { done. }
  { rewrite Hpv1. destruct Hpv as [?|[Hin Hval]]; [by left | right]. split_and!.
    - intros Heq. by rewrite Heq in Hin.
    - intros Heq. by rewrite Heq in Hin.
    - by apply (same_valid _ _ _ _ Hlinks). }
  { rewrite Hnx1. destruct Hnx as [?|[Hin Hval]]; [by left | right]. split_and!.
    - intros Heq. by rewrite Heq in Hin.
    - intros Heq. by rewrite Heq in Hin.
    - by apply (same_valid _ _ _ _ Hlinks). }
  { rewrite Hpv1, Hnx1. intros Hp Heq.
    destruct Hpv as [?|[Hin1 _]]; [done|].
    destruct Hnx as [Hn|[Hin2 _]]; [congruence|].
    apply (Hdisj' _ Hin1). by rewrite Heq. }
  cbn [heap set_heap] in Hnext', Hprev', Hframe.
  rewrite Hty1, Hpv1, Hnx1 in *.
  exists cd, h'. split; [done|]. split; [done|]. split.
  { rewrite Hrun, Hrun2. reflexivity. }
  (* links outside the family *)
  assert (Hout : ∀ q, q ≠ node -> q ≠ c -> q ≠ n_next cd -> q ≠ n_prev cd ->
                      links <$> obj h' q = links <$> obj (heap w) q).
  { intros q ? ? ? ?. rewrite Hframe by done. apply Hlinks. }
  (* the neighbours *)
  assert (Hpd : n_prev cd ≠ NULL ->
                ∃ pd pd', obj (heap w) (n_prev cd) = Some pd ∧ obj h' (n_prev cd) = Some pd'
                          ∧ links pd' = links (set_next (n_next cd) pd)).
  { intros Hp. destruct Hpv as [?|[_ [pd Hpd]]]; [done|].
    destruct (same_obj _ _ _ _ _ Hlinks Hpd) as (pd1 & Hpd1 & Hrel).
    exists pd, (set_next (n_next cd) pd1). split; [done|].
    split; [by apply Hprev' | by apply links_set_next]. }
  assert (Hxd : n_next cd ≠ NULL ->
                ∃ xd xd', obj (heap w) (n_next cd) = Some xd ∧ obj h' (n_next cd) = Some xd'
                          ∧ links xd' = links (set_prev (n_prev cd) xd)).
  { intros Hn. destruct Hnx as [?|[_ [xd Hxd]]]; [done|].
    destruct (same_obj _ _ _ _ _ Hlinks Hxd) as (xd1 & Hxd1 & Hrel).
    exists xd, (set_prev (n_prev cd) xd1). split; [done|].
    split; [by apply Hnext' | by apply links_set_prev]. }
  (* valid pointers stay valid *)
  assert (Hvalid : ∀ q, is_Some (obj (heap w) q) -> is_Some (obj h' q)).
  { intros q Hq.
    destruct (decide (q = node)) as [->|Hq1]; [eauto|].
    destruct (decide (q = c)) as [->|Hq2]; [eauto|].
    destruct (decide (q = n_next cd)) as [->|Hq3].
    { destruct Hq as [xd Hq]. pose proof (obj_Some_valid _ _ _ Hq) as (H0 & _).
      destruct (Hxd H0) as (? & ? & _ & ? & _). eauto. }
    destruct (decide (q = n_prev cd)) as [->|Hq4].
    { destruct Hq as [pd Hq]. pose proof (obj_Some_valid _ _ _ Hq) as (H0 & _).
      destruct (Hpd H0) as (? & ? & _ & ? & _). eauto. }
    rewrite Hframe by done. by apply (same_valid _ _ _ _ Hlinks). }
  assert (Hout2 : ∀ q, q ≠ node -> q ≠ c ->
                       (n_next cd ≠ NULL -> q ≠ n_next cd) ->
                       (n_prev cd ≠ NULL -> q ≠ n_prev cd) ->
                       links <$> obj h' q = links <$> obj (heap w) q).
  { intros q Hq1 Hq2 Hq3 Hq4.
    destruct (decide (q = NULL)) as [->|Hq0]; [by rewrite !obj_NULL|].
    apply Hout; [done | done | |].
    - destruct (decide (n_next cd = NULL)) as [Heq|Hn]; [by rewrite Heq | by apply Hq3].
    - destruct (decide (n_prev cd = NULL)) as [Heq|Hp]; [by rewrite Heq | by apply Hq4]. }
  assert (Hnext_in : n_next cd ≠ NULL -> n_next cd ∈ l2).
  { intros Hn. by destruct Hnx as [?|[? _]]. }
  assert (Hprev_in : n_prev cd ≠ NULL -> n_prev cd ∈ l1).
  { intros Hp. by destruct Hpv as [?|[? _]]. }
  split_and!.
  - (* the family without [c] *)
    split_and!.
    + apply NoDup_cons. split.
      * intros [?|?]%elem_of_app; [by apply Hnode_l1 | by apply Hnode_l2].
      * apply NoDup_app. by split_and!.
    + eexists. split; [exact Hnode'|]. simpl. split.
      * rewrite Hnch, Hch. destruct l1 as [|a l1t]; simpl.
        -- rewrite bool_decide_eq_true_2 by done. exact Hnext.
        -- rewrite bool_decide_eq_false_2; [done|].
           intros ->. apply Hc_l1. by left.
      * rewrite Hnla, Hla. destruct l2 as [|x l2t].
        -- rewrite last_snoc, app_nil_r. simpl.
           rewrite bool_decide_eq_true_2 by done. exact Hprev.
        -- rewrite !last_app_cons, last_cons_cons.
           destruct (last (x :: l2t)) as [z|] eqn:Hz; [|by apply last_None in Hz].
           simpl. rewrite bool_decide_eq_false_2; [done|].
           intros ->. apply Hc_l2. by apply last_Some_elem_of.
    + apply seg_app. split.
      * destruct (last l1) as [p|] eqn:Hlast;
          [apply last_Some in Hlast as [l1' ->] | by apply last_None in Hlast as ->].
        rewrite ?last_snoc in Hprev. simpl in Hprev.
        assert (p ≠ NULL) as Hp0.
        { destruct (seg_last_valid _ _ _ _ _ _ Hseg1) as [pd Hpd0].
          by apply obj_Some_valid in Hpd0 as (? & _). }
        apply NoDup_app in Hnd1 as (_ & Hp_out & _).
        apply (seg_relink_last (heap w) h' node NULL l1' p c); [done | | | done].
        -- intros q Hq. apply Hout2.
           ++ intros ->. apply Hnode_l1, elem_of_app. by left.
           ++ intros ->. apply Hc_l1, elem_of_app. by left.
           ++ intros Hn ->. apply (Hdisj' (n_next cd)); [|by apply Hnext_in].
              apply elem_of_app. by left.
           ++ intros _ Heq. rewrite Hprev in Heq. subst q.
              apply (Hp_out p Hq). by left.
        -- rewrite <- Hnext, <- Hprev. apply Hpd. by rewrite Hprev.
      * destruct l2 as [|x l2t]; [done|]. simpl in Hnext.
        assert (x ≠ NULL) as Hx0.
        { destruct Hseg3 as [(xd & Hxd0 & _) _].
          by apply obj_Some_valid in Hxd0 as (? & _). }
        apply NoDup_cons in Hnd2 as [Hx_out _].
        apply (seg_relink_first (heap w) h' node c); [done | | | done].
        -- intros q Hq. apply Hout2.
           ++ intros ->. apply Hnode_l2. by right.
           ++ intros ->. apply Hc_l2. by right.
           ++ intros _ Heq. rewrite Hnext in Heq. by subst q.
           ++ intros Hp ->. apply (Hdisj' (n_prev cd)); [by apply Hprev_in | by right].
        -- rewrite <- Hnext, <- Hprev. apply Hxd. by rewrite Hnext.
  - eexists. split; [exact Hc'|]. simpl. by split_and!.
  - intros q Hq1 Hq2. apply Hout2; [done | | |].
    + intros ->. apply Hq2, elem_of_app. right. by left.
    + intros Hn ->. apply Hq2, elem_of_app. right. right. by apply Hnext_in.
    + intros Hp ->. apply Hq2, elem_of_app. left. by apply Hprev_in.
  - intros q Hq1.
    assert (Hsub : ∀ n n', links n' = links n -> subtree n' = subtree n).
    { intros n n'. unfold links, subtree. by intros [= _ -> -> _ _ _ _]. }
    destruct (decide (q = c)) as [->|Hq2].
    { rewrite Hc', Hc. simpl. f_equal. unfold subtree. simpl. by rewrite Hcch, Hcla. }
    destruct (decide (q = NULL)) as [->|Hq0]; [by rewrite !obj_NULL|].
    destruct (decide (q = n_next cd)) as [->|Hq3].
    { destruct (Hxd Hq0) as (xd & xd' & -> & -> & Hrel). simpl. f_equal.
      by rewrite (Hsub _ _ Hrel). }
    destruct (decide (q = n_prev cd)) as [->|Hq4].
    { destruct (Hpd Hq0) as (pd & pd' & -> & -> & Hrel). simpl. f_equal.
      by rewrite (Hsub _ _ Hrel). }
    rewrite Hframe by done. change (heap w1) with h1.
    destruct (obj (heap w) q) as [n|] eqn:Hq.
    + destruct (same_obj _ _ _ _ _ Hlinks Hq) as (n' & -> & Hrel). simpl. f_equal.
      by apply Hsub.
    + specialize (Hlinks q). rewrite Hq in Hlinks. by destruct (obj h1 q).
Qed.

(** X10.  [xmlUnlinkNodeWithCheck] on any child [c] of a well-formed
    family returns 1 and takes exactly [c] out: the other children stay
    the children of the node in their order, with [children], [last],
    [prev] and [next] repaired around the gap; [c] ends up without
    parent and siblings; and no link of an object outside the family
    changes. *)
Theorem xmlUnlinkNodeWithCheck_removes_child w node l1 c l2
    (Hfamily : family (heap w) node (l1 ++ c :: l2)) :
  ∃ h',
    xmlUnlinkNodeWithCheck c w = Some (1, add_event (EvUnlinkNode c) (set_heap h' w))
    ∧ family h' node (l1 ++ l2)
    ∧ detached h' c
    ∧ (∀ q, q ≠ node -> q ∉ l1 ++ c :: l2 ->
            links <$> obj h' q = links <$> obj (heap w) q).
Proof.
  pose proof Hfamily as (_ & (nd & Hnode & _) & _).
  pose proof (obj_Some_valid _ _ _ Hnode) as (_ & Hsentinel & _).
  destruct (xmlUnlinkNode_child w node l1 c l2 Hfamily)
    as (cd & h' & Hc & Hparent & Hrun & Hfamily' & (cd' & Hc' & ? & ? & ? & _) & Hframe & _).
  exists h'. split_and!; [|done|by exists cd'|done].
  rewrite (xmlUnlinkNodeWithCheck_run _ _ _ Hc), Hparent.
  rewrite bool_decide_eq_false_2 by done.
  by rewrite bind_run, Hrun.
Qed.

Lemma three_children_family : family three_children_heap 10 [20; 30; 40].
Proof.
  split_and!.
  - by apply (bool_decide_unpack (NoDup [10; 20; 30; 40])).
  - eexists. split; [reflexivity|]. split; reflexivity.
  - simpl. unfold sibling.
    repeat split; eexists; (split; [reflexivity|]); split_and!;
      (reflexivity || discriminate || intros [=]).
Qed.

(** The middle child of three. *)
Lemma xmlUnlinkNodeWithCheck_removes_child_witness :
  ∃ h', xmlUnlinkNodeWithCheck 30 three_children_world
          = Some (1, add_event (EvUnlinkNode 30) (set_heap h' three_children_world))
        ∧ family h' 10 [20; 40].
Proof.
  destruct (xmlUnlinkNodeWithCheck_removes_child three_children_world 10 [20] 30 [40]
              three_children_family) as (h' & Hrun & Hfamily & _).
  exists h'. split; [exact Hrun | exact Hfamily].
Defined.

(** X11.  The test in [xmlUnlinkNodeWithCheck] is what keeps the
    sentinel from being followed: for a node whose parent is
    [(void* )(-1)] (and that is no namespace declaration) a bare
    [xmlUnlinkNode] faults on the dereference of the parent, while
    [xmlUnlinkNodeWithCheck] returns 0 with the world untouched. *)
Theorem xmlUnlinkNodeWithCheck_shields_sentinel node n w
    (Hnode : obj (heap w) node = Some n)
    (Hparent : n_parent n = DETACHED)
    (Hns : n_type n ≠ XML_NAMESPACE_DECL) :
  xmlUnlinkNode node w = None
  ∧ xmlUnlinkNodeWithCheck node w = Some (0, w).
Proof.
  split.
  - assert (wlp (xmlUnlinkNode node) (λ _ _, False) w) as Hnever.
    { pose proof (obj_Some_valid _ _ _ Hnode) as (Hnull & _ & _).
      unfold xmlUnlinkNode. apply wlp_bind, wlp_log. cbv beta.
      rewrite bool_decide_eq_false_2 by done.
      apply wlp_bind, wlp_read. simpl. intros n' Hn'. rewrite Hnode in Hn'.
      injection Hn' as <-. rewrite bool_decide_eq_false_2 by done.
      apply wlp_bind.
      apply wlp_mono with (Q := λ _ w1, same links (heap w) (heap w1)).
      { apply wlp_when; [intros _ | intros _; apply same_refl].
        apply (unlink_from_doc_same_links node (heap w)), same_refl. }
      intros _ w1 Hlinks. apply wlp_bind. unfold unlink_from_parent.
      apply wlp_bind, wlp_read. intros n1 Hn1.
      destruct (same_obj_inv _ _ _ _ _ Hlinks Hn1) as (n0 & Hn0 & Hrel).
      rewrite Hnode in Hn0. injection Hn0 as <-.
      unfold links in Hrel. injection Hrel as _ _ _ Hpa _ _ _.
      rewrite Hpa, Hparent. rewrite bool_decide_eq_true_2 by done.
      apply wlp_bind. case_bool_decide.
      - apply wlp_bind, wlp_read. intros ? Hobj. by rewrite obj_DETACHED in Hobj.
      - apply wlp_bind, wlp_read. intros ? Hobj.
        by rewrite obj_DETACHED in Hobj. }
    unfold wlp in Hnever. by destruct (xmlUnlinkNode node w) as [[[] ?]|].
  - rewrite (xmlUnlinkNodeWithCheck_run _ _ _ Hnode).
    by rewrite bool_decide_eq_true_2.
Qed.

Lemma xmlUnlinkNodeWithCheck_shields_sentinel_witness :
  xmlUnlinkNode 20 sentinel_world = None
  ∧ xmlUnlinkNodeWithCheck 20 sentinel_world = Some (0, sentinel_world).
Proof.
  exact (xmlUnlinkNodeWithCheck_shields_sentinel 20 _ sentinel_world
           eq_refl eq_refl ltac:(done)).
Defined.

(** Walk a block made of reads, writes and trace entries, carrying
    [same view h0 (heap w)] along; at the end the relation holds, and
    the last error and the memory are where they were. *)
Ltac frame_walk Hs :=
  repeat first
    [ progress cbv beta
    | apply wlp_bind
    | lazymatch goal with
      | |- wlp (log _) _ _ => apply wlp_log
      | |- wlp (mret _) _ _ => apply wlp_ret
      | |- wlp (if ?c then _ else _) _ _ => destruct c
      end
    | apply wlp_read; intros ? ?
    | apply wlp_when; intros ?
    | lazymatch goal with
      | |- wlp (write ?upd ?p ?v) _ ?w =>
          let n := fresh "n" in
          let Hn := fresh "Hn" in
          let Hs' := fresh "Hs" in
          apply wlp_write; intros n Hn;
          lazymatch type of Hs with
          | same ?view ?h0 ?h =>
              pose proof (same_trans view h0 h _ Hs
                            (same_write view h p n (upd v n) Hn eq_refl)) as Hs'
          end;
          clear Hs; rename Hs' into Hs; simpl
      end ];
  try (split; [exact Hs | split; reflexivity]).

(** Unlinking changes links only: the type, the document pointer and
    the content of every object stay, and so do the library's last error
    and the memory. *)
Lemma xmlUnlinkNode_keeps_payload cur w :
  wlp (xmlUnlinkNode cur)
      (λ _ w', same payload (heap w) (heap w')
               ∧ lastError w' = lastError w ∧ mem w' = mem w) w.
Proof.
  pose proof (same_refl payload (heap w)) as Hs.
  unfold xmlUnlinkNode, unlink_from_doc, unlink_from_parent, unlink_from_siblings.
  frame_walk Hs.
Qed.

(** X12.  Whatever the tree looks like, a call of
    [xmlUnlinkNodeWithCheck] that returns changes links only: every
    object keeps its type, its document pointer and its content (so
    [getNodeType] answers as before for every node), and the library's
    last error and the memory are untouched. *)
Theorem xmlUnlinkNodeWithCheck_keeps_payload node w r w'
    (Hrun : xmlUnlinkNodeWithCheck node w = Some (r, w')) :
  same payload (heap w) (heap w')
  ∧ lastError w' = lastError w ∧ mem w' = mem w
  ∧ ∀ q, fst <$> getNodeType q w' = fst <$> getNodeType q w.
Proof.
  assert (same payload (heap w) (heap w')
          ∧ lastError w' = lastError w ∧ mem w' = mem w) as (Hs & He & Hm).
  { unfold xmlUnlinkNodeWithCheck in Hrun. rewrite bind_run in Hrun.
    unfold read in Hrun. destruct (obj (heap w) node) as [n|]; [|done].
    case_bool_decide.
    - rewrite bind_run in Hrun.
      destruct (xmlUnlinkNode node w) as [[[] w1]|] eqn:Hunlink; [|done].
      injection Hrun as <- <-.
      exact (wlp_elim _ _ _ _ _ (xmlUnlinkNode_keeps_payload node w) Hunlink).
    - injection Hrun as <- <-. split; [apply same_refl | done]. }
  split_and!; try done.
  intros q. unfold getNodeType, read. specialize (Hs q).
  destruct (obj (heap w') q) as [n'|], (obj (heap w) q) as [n|]; try done.
  simpl in *. unfold payload in Hs. by injection Hs as -> _ _.
Qed.

Lemma xmlUnlinkNodeWithCheck_keeps_payload_witness :
  ∃ w', xmlUnlinkNodeWithCheck 30 three_children_world = Some (1, w')
        ∧ fst <$> getNodeType 30 w' = Some XML_ELEMENT_NODE.
Proof.
  assert (∃ w', xmlUnlinkNodeWithCheck 30 three_children_world = Some (1, w'))
    as [w' Hrun] by (eexists; reflexivity).
  exists w'. split; [exact Hrun|].
  destruct (xmlUnlinkNodeWithCheck_keeps_payload 30 three_children_world 1 w' Hrun)
    as (_ & _ & _ & Htype).
  rewrite Htype. reflexivity.
Defined.

(** * More about [xmlSetContent] *)

(** The loop of [xmlSetContent] changes links only, however far it gets. *)
Lemma unlink_children_keeps_payload gonode fuel : ∀ child w,
  wlp (unlink_children fuel gonode child)
      (λ _ w', same payload (heap w) (heap w')
               ∧ lastError w' = lastError w ∧ mem w' = mem w) w.
Proof.
  induction fuel as [|fuel IH]; intros child w; simpl.
  - case_bool_decide; [|done]. split; [apply same_refl | done].
  - case_bool_decide; [split; [apply same_refl | done]|].
    apply wlp_bind, wlp_read. intros n Hn.
    apply wlp_bind. eapply wlp_mono; [apply xmlUnlinkNode_keeps_payload|].
    cbv beta. intros _ w1 (Hs1 & He1 & Hm1).
    apply wlp_bind, wlp_log. cbv beta.
    eapply wlp_mono; [apply IH|].
    cbv beta. intros _ w2 (Hs2 & He2 & Hm2). split_and!.
    + by apply (same_trans _ _ (heap w1)).
    + by rewrite He2.
    + by rewrite Hm2.
Qed.

Lemma fmap_obj_Some {V} (view : xmlNode -> V) h h' q n :
  view <$> obj h' q = view <$> obj h q -> obj h q = Some n ->
  ∃ n', obj h' q = Some n' ∧ view n' = view n.
Proof.
  intros Heq Hq. rewrite Hq in Heq. destruct (obj h' q) as [n'|]; [|done].
  exists n'. split; [done|]. by injection Heq.
Qed.

(** The loop of [xmlSetContent] on a family: the node ends up without
    children, [last] included, and each former child without parent and
    siblings but with the subtree it had. *)
Lemma unlink_children_empties gonode node cs : ∀ fuel w,
  family (heap w) node cs ->
  (length cs <= fuel)%nat ->
  ∃ h',
    unlink_children fuel gonode (hd NULL cs) w
      = Some (tt, add_events (unlink_events gonode cs) (set_heap h' w))
    ∧ family h' node []
    ∧ (∀ c cd, c ∈ cs -> obj (heap w) c = Some cd ->
               ∃ cd', obj h' c = Some cd'
                      ∧ n_parent cd' = NULL ∧ n_next cd' = NULL ∧ n_prev cd' = NULL
                      ∧ subtree cd' = subtree cd)
    ∧ (∀ q, q ≠ node -> q ∉ cs -> links <$> obj h' q = links <$> obj (heap w) q)
    ∧ (∀ q, q ≠ node -> subtree <$> obj h' q = subtree <$> obj (heap w) q).
Proof.
  induction cs as [|c cs IH]; intros fuel w Hfamily Hfuel.
  - exists (heap w). split_and!; try done.
    + destruct fuel; simpl; by rewrite set_heap_id, add_events_nil.
    + by intros c cd ?%elem_of_nil.
  - destruct fuel as [|fuel]; [simpl in Hfuel; lia|].
    pose proof Hfamily as (Hnodup & _ & [(cd & Hc & _ & _ & Hnext & _) _]).
    apply NoDup_cons in Hnodup as [Hnode_out Hnodup].
    apply NoDup_cons in Hnodup as [Hc_out _].
    assert (c ≠ node) as Hne by (intros ->; apply Hnode_out; by left).
    pose proof (obj_Some_valid _ _ _ Hc) as (Hc0 & _ & _).
    destruct (xmlUnlinkNode_child w node [] c cs Hfamily)
      as (cd0 & h1 & Hc' & _ & Hrun1 & Hfamily1
          & (cd1 & Hcd1 & Hpa1 & Hnx1 & Hpv1 & Hch1 & Hla1) & Hframe1 & Hsub1).
    rewrite Hc in Hc'. injection Hc' as <-. simpl in Hfamily1.
    simpl hd. simpl unlink_children.
    rewrite bool_decide_eq_false_2 by done.
    run_read Hc. rewrite Hnext.
    rewrite bind_run, Hrun1. cbv beta iota.
    rewrite bind_run. unfold xmlUnlinkNodeCallback, log. cbv beta iota.
    set (w2 := add_event (EvUnlinkNodeCallback c gonode)
                 (add_event (EvUnlinkNode c) (set_heap h1 w))).
    destruct (IH fuel w2) as (h' & Hrun & Hfamily' & Hkids & Hframe & Hsub);
      [done | simpl in Hfuel; lia |].
    cbn [heap set_heap] in Hkids, Hframe, Hsub.
    rewrite Hrun. exists h'. split_and!.
    + unfold w2, add_event, add_events, set_heap. simpl. by rewrite <- !app_assoc.
    + done.
    + intros q qd [->|Hq]%elem_of_cons Hqd.
      * rewrite Hc in Hqd. injection Hqd as <-.
        destruct (fmap_obj_Some links h1 h' c cd1) as (cd' & Hcd' & Hrel);
          [by apply Hframe | done |].
        unfold links in Hrel. injection Hrel as _ Hch Hla Hpa Hnx Hpv _.
        exists cd'. split; [done|]. unfold subtree.
        rewrite Hpa, Hnx, Hpv, Hch, Hla, Hch1, Hla1. by split_and!.
      * assert (q ≠ node) as Hqn by (intros ->; apply Hnode_out; by right).
        destruct (fmap_obj_Some subtree (heap w) h1 q qd) as (qd1 & Hqd1 & Hrel1);
          [by apply Hsub1 | done |].
        destruct (Hkids q qd1 Hq Hqd1) as (qd' & Hqd' & ? & ? & ? & Hrel).
        exists qd'. split; [done|]. split_and!; try done. by rewrite Hrel.
    + intros q Hq1 Hq2. rewrite Hframe; [apply Hframe1; [done|] | done |].
      * by rewrite app_nil_l.
      * intros ?. apply Hq2. by right.
    + intros q Hq. by rewrite Hsub, Hsub1.
Qed.

(** X13.  On a well-formed family whose content encodes,
    [xmlSetContent] leaves the node with neither a first nor a last
    child when the library is asked to set the content, and hands every
    child to the host intact: detached from parent and siblings, but
    with its own subtree, type, document pointer and content as they
    were. *)
Theorem xmlSetContent_hands_over_children `{Libxml2} fuel gonode node content w n cs enc
    (Hnode : obj (heap w) node = Some n)
    (Hfamily : family (heap w) node cs)
    (Hencoded : lib_xmlEncodeSpecialChars (heap w) (n_doc n) content = Some enc)
    (Hfuel : (length cs <= fuel)%nat) :
  ∃ h1,
    xmlSetContent fuel gonode node content w =
      Some (tt, World (lib_xmlNodeSetContent h1 node enc) (lastError w) (mem w)
                      (trace w ++ [EvEncodeSpecialChars (n_doc n) content]
                               ++ unlink_events gonode cs
                               ++ [EvNodeSetContent node enc; EvFree enc]))
    ∧ (∃ n1, obj h1 node = Some n1
             ∧ n_children n1 = NULL ∧ n_last n1 = NULL ∧ payload n1 = payload n)
    ∧ (∀ c cd, c ∈ cs -> obj (heap w) c = Some cd ->
               ∃ cd', obj h1 c = Some cd'
                      ∧ n_parent cd' = NULL ∧ n_next cd' = NULL ∧ n_prev cd' = NULL
                      ∧ subtree cd' = subtree cd ∧ payload cd' = payload cd).
Proof.
  pose proof Hfamily as (_ & (n' & Hnode' & Hhd & _) & _).
  rewrite Hnode in Hnode'. injection Hnode' as <-.
  unfold xmlSetContent. run_read Hnode. run_read Hnode. rewrite Hhd.
  rewrite bind_run. unfold xmlEncodeSpecialChars. rewrite Hencoded. cbv beta iota.
  set (w1 := add_event (EvEncodeSpecialChars (n_doc n) content) w).
  destruct (unlink_children_empties gonode node cs fuel w1)
    as (h1 & Hrun & (_ & (n1 & Hn1 & Hch1 & Hla1) & _) & Hkids & _); [done..|].
  pose proof (wlp_elim _ _ _ _ _ (unlink_children_keeps_payload gonode fuel (hd NULL cs) w1)
                Hrun) as (Hpayload & _).
  cbn [heap add_events set_heap] in Hpayload.
  rewrite bind_run, Hrun. cbv beta iota.
  exists h1. split_and!.
  - unfold xmlNodeSetContent, xmlFree, log. rewrite bind_run. cbv beta iota.
    unfold w1, add_event, add_events, set_heap. simpl.
    by rewrite <- !app_assoc.
  - exists n1. split; [done|]. split_and!; try done.
    destruct (same_obj _ _ _ _ _ Hpayload Hnode) as (n1' & Hn1' & Hrel).
    rewrite Hn1 in Hn1'. by injection Hn1' as <-.
  - intros c cd Hin Hcd.
    destruct (Hkids c cd Hin Hcd) as (cd' & Hcd' & ? & ? & ? & ?).
    exists cd'. split; [done|]. split_and!; try done.
    destruct (same_obj _ _ _ _ _ Hpayload Hcd) as (cd'' & Hcd'' & Hrel).
    rewrite Hcd' in Hcd''. by injection Hcd'' as <-.
Qed.

Lemma xmlSetContent_hands_over_children_witness :
  ∃ h1 w' n1,
    @xmlSetContent quiet_lib 3 77 10 (Some "x & y"%string) three_children_world
      = Some (tt, w')
    ∧ obj h1 10 = Some n1 ∧ n_children n1 = NULL ∧ n_last n1 = NULL.
Proof.
  destruct (@xmlSetContent_hands_over_children quiet_lib 3 77 10 (Some "x & y"%string)
              three_children_world _ [20; 30; 40] "x &amp; y"%string
              eq_refl three_children_family eq_refl (le_n 3))
    as (h1 & Hrun & (n1 & Hn1 & Hch & Hla & _) & _).
  exists h1. eexists. exists n1. split; [exact Hrun|]. by split_and!.
Defined.

(** * Serialized strings and their release *)

(** X14.  The string [xmlDocDumpToString] returns can be passed to
    [xmlFreeChars] whatever the outcome of the dump: a buffer the
    library produced is freed by exactly one [xmlFree], and after a
    failed dump (null) no [xmlFree] is called at all. *)
Theorem xmlFreeChars_after_dump `{Libxml2} doc encoding format w :
  ∃ w',
    (xmlDocDumpToString doc encoding format ≫= xmlFreeChars) w = Some (tt, w')
    ∧ heap w' = heap w
    ∧ new_events w w' =
        EvDocDumpFormatMemoryEnc doc encoding format ::
        match lib_xmlDocDumpFormatMemoryEnc (heap w) doc encoding format with
        | Some s => [EvFree s]
        | None => []
        end.
Proof.
  rewrite bind_run. unfold xmlDocDumpToString, xmlFreeChars.
  destruct (lib_xmlDocDumpFormatMemoryEnc (heap w) doc encoding format) as [s|].
  - eexists. split; [reflexivity|]. split; [done|].
    apply new_events_app. unfold add_event, add_events. simpl. by rewrite <- app_assoc.
  - eexists. split; [reflexivity|]. split; [done|]. by apply new_events_app.
Qed.
